(* ===== verification/_CoqProject ===== *)
-Q . S2P
Prelude.v
Types.v
Store.v
Effects.v
Card.v
Grid.v
App.v
Scenario.v
Invariants.v
Playback.v
Liveness.v
Refinement.v
Query.v
Fetcher.v
Sidebar.v
System.v
