(* ===== verification/Prelude.v ===== *)
(** * A verification development for the music library front end

    ** The program

    The repository is the browsing and playback front end of a song
    generation service (Next.js, React, TypeScript).  Six source files are
    under [src/src]:

    - [components/home-songs-fetcher.tsx], the server component
      [HomeSongsFetcher]: it reads the session, redirects an unauthenticated
      request, queries the song table for the viewer's own songs and the
      published songs of everybody else (newest first), signs each thumbnail
      key, and projects every row to the props of a card;
    - [components/song-card.tsx], the client component [SongCard]: a card
      with a loading flag and a hover flag, a play handler that awaits a
      playable URL and writes the track to the player store, a download
      handler, and the markup that derives "current" and "playing" from the
      store;
    - [components/song-grid.tsx], the client component [SongGrid]: the list
      of cards, the selected song of the detail dialog, one loading flag for
      the dialog, and the same play and download handlers for the dialog;
    - [app/(main)/page.tsx], the page [HomePage]: a second session check
      around [HomeSongsFetcher];
    - [components/sidebar/upgrade.tsx] and [components/create.tsx], two
      buttons that call the payment client and the generation queue.

    The player store ([~/stores/use-player-store]), the server actions
    ([getPlayUrl], [getPreSignedUrl], [queueSong]), the database client and
    the session library are imported by these files and are not part of
    the repository's sources.

    ** The files of the development

    - [Prelude] (this file): the JavaScript values the sources compute with
      (nullable strings and their truthiness, the nullish default [??],
      thrown values and the text the handlers log, settled promises and
      [Promise.all]), the development's tactic and hint databases, and the
      list lemmas the components share.
    - [Types]: the records of the program, one module per type: [User] and
      [Song] (the rows the fetcher reads), [SongCardProps] (the data a card
      receives, [song-card.tsx] lines 24-40) and [Track] (what the store
      holds), with decidable equality, and [find_song], the card React
      mounts under a key.
    - [Store]: the player store.  Its contract is the class
      [PlayerStoreOps] (a state, [getTrack], [setTrack], and the laws "a
      new store holds nothing" and "a read after a write returns the
      written track"); [SlotStore] is the single slot the spec describes,
      an instance of the class.  Everything that uses the store is proved
      against the class.
    - [Effects]: what a handler asks of its environment, as data: the
      commands [Cmd], the track a play handler builds ([track_of]), and the
      closures of the program ([Callback], [Awaiting]).
    - [Card]: module [SongCard], the card of [song-card.tsx]: its state
      ([isLoading], [isHovered]), [isCurrentTrack], [isPlaying], the
      handlers as functions from the state to the new state and the list of
      commands they issue ([handlePlayPause] is the part before the
      [await], [handlePlayPause_settled] the part after it), [click] (which
      handlers a click reaches, with [stopPropagation]), and [render], the
      markup's conditional content.
    - [Grid]: module [SongGrid], the grid of [song-grid.tsx]: its state
      ([selectedSong], [isLoading]), its handlers in the same style, and
      [render] (the empty state, the cards, the dialog).
    - [App]: the client as one transition system.  [World] holds the props,
      the store, the state of every card (keyed by the React key, the song
      id), the state of the grid, the promises in flight, the console and
      the opened windows.  [Event] is a user action or the settling of
      one promise in flight; [step] runs the handler the event reaches and
      interprets its commands; [Step] gives the same transitions as rules
      and [step_Step] shows that the two agree; [reachable] is the closure
      of [step] from [init].
    - [Scenario]: the three songs of the spec's scenario as the client
      receives them, and the runs the theorems are applied to.
    - [Invariants]: [Always], the invariants [wf], [inv_loading] and
      [inv_track] with their preservation lemmas, and what a run writes to
      the store.
    - [Playback]: what single events do to the page: which events write the
      store, rejection, fulfilment, which cards show as playing, the two
      guards, the empty list.
    - [Liveness]: every promise in flight can settle; settling all of them
      leaves nothing in flight and no flag set; nothing else clears a flag.
    - [Refinement]: the state machine of the spec's section 4.5 ([AStep],
      over the current track id and one resolving flag per component
      instance, up to the equivalence of states that agree pointwise), the
      abstraction [abs] of a world, and the simulation.
    - [Query]: the argument of the fetcher's [findMany] call as data
      ([homeQuery]) and the meaning of [where], [orderBy] and [include]
      over tables ([findMany]), with a stable descending sort.
    - [Fetcher]: [HomeSongsFetcher] and [HomePage] as computations in the
      monad [Server], which records the calls made to the collaborators of
      [Backend] (session, tables, signer) and ends in a value, a redirect
      or a thrown error.
    - [Sidebar]: modules [Upgrade] and [CreateSong], the two buttons.
    - [System]: a served request followed by the session of the client it
      starts.

    ** How effects are modelled

    A handler is a function [State -> State * list Cmd]: the new value of
    the component's [useState] cells and the calls it makes, in order
    ([StopPropagation], [CallGetPlayUrl], [SetTrack], [ConsoleError],
    [WindowOpen], and [Invoke] for the [onCardClick] callback).  An [await]
    splits a handler in two definitions; the promise in flight is a
    [Pending] record that names the component instance that awaits it and
    the props its closure captured.  A promise settles with [Fulfilled url]
    or [Rejected e] at any later step, in any order: this is the only
    nondeterminism of the client.  React's event delivery is taken at the
    level of committed state: a handler sees the state the previous event
    left.

    On the server a component is a function from the calls made so far to
    the calls made at its end and its outcome.  [Promise.all] over
    [songs.map] starts every body before any is awaited, so the signer is
    called for every row even when one call fails; the rejection that
    [Promise.all] reports is taken from the first rejected promise of the
    list.

    ** What the theorems show

    - Store: last write wins, for every implementation of the contract.
    - Card and grid: each handler on each branch, errors included; two
      clicks in a row send one request; the guard of the play handler
      agrees with the [disabled] attribute; a click on a button does not
      open the dialog; the dialog's handler writes what the card's writes.
    - Client ([Invariants], [Playback], [Liveness]): a loading flag is set
      exactly when one play request of that instance is in flight; the
      current track was built from a song of the list; at most one card
      shows as playing; a rejected promise leaves the store as it was; a
      download never writes the store; the last promise to be fulfilled
      decides the track, whatever the order of the clicks; the guards of a
      card and of the dialog are separate, and the dialog's guard is shared
      by all songs; every promise in flight can settle and settling all of
      them clears every flag; with no songs nothing is enabled.
    - [Refinement]: every step of the client is a step of the spec's state
      machine, and every run a run of it.
    - [Query] and [Fetcher]: a row is returned exactly when the viewer owns
      it or it is published; the result is sorted by creation time,
      descending, stably, and is a permutation of the visible rows; the
      fetcher's calls and outcome in every case (no session, the signer
      answers, the signer fails for a row); the projection keeps the order,
      sets [isOwnSong] exactly for the viewer's rows and [playUrl] to null;
      an absent or empty thumbnail key is never signed; a page request
      reads data only with a session at both of its lookups.
    - [System]: in the session a request starts the store only ever holds a
      track of a song the viewer may see, every request in flight is for
      such a song, and the empty state is shown exactly when the viewer may
      see no song.

    ** Bounds and assumptions

    No fuel is needed: every definition is structurally recursive, and
    every function of the development is total.  Creation times are
    integers ([Z], the time value of the [Date]).  Strings are [string];
    [null] and [undefined] are both [None].  Song ids are the React keys of
    the cards, so the theorems that count cards assume the ids of the list
    are distinct ([NoDup]), as the primary key of the table makes them
    ([songs_for_NoDup]).  The answer of the session lookup may differ
    between the two lookups of a page request; the answer of the signer is
    a function of the key within one request.

    ** Not modelled

    Styling and class names; the audio element; the network transport of
    the server actions (only their outcome is modelled); the internals of
    the session library, the database client, the payment client and the
    generation queue; hydration, and re-rendering of the server component
    while the client state lives; unmounting (the list of cards of a
    session is fixed, so no promise outlives its card); the argument
    [queueSong] receives from the click. *)

From stdpp Require Export base tactics option list strings.

(** ** JavaScript values *)

Declare Scope js_scope.
Delimit Scope js_scope with js.

(** A nullable string is truthy when it is present and not empty. *)
Definition truthy (o : option string) : bool :=
  match o with
  | Some (String _ _) => true
  | _ => false
  end.

(** [o ?? d]: the nullish default keeps every present string, the empty one
    included. *)
Notation "o ?? d" := (default d o) (at level 45, left associativity) : js_scope.

(** What a rejected promise carries: an [Error] object with its message, or
    any other thrown value with the text [String(error)] gives. *)
Inductive JsError :=
| ErrorObject (message : string)
| Thrown (text : string).

(** [error instanceof Error ? error.message : String(error)] *)
Definition error_text (e : JsError) : string :=
  match e with
  | ErrorObject m => m
  | Thrown s => s
  end.

(** A settled promise. *)
Inductive Settled (A : Type) :=
| Fulfilled (a : A)
| Rejected (e : JsError).
Arguments Fulfilled {A} a.
Arguments Rejected {A} e.

#[export] Instance JsError_eq_dec : EqDecision JsError.
Proof. solve_decision. Defined.

#[export] Instance Settled_eq_dec `{EqDecision A} : EqDecision (Settled A).
Proof. solve_decision. Defined.

(** [Promise.all]: fulfilled with every value, in the order of the list,
    when every promise is fulfilled; otherwise rejected.  The rejection is
    taken from the first rejected promise of the list. *)
Fixpoint Promise_all {A} (ps : list (Settled A)) : Settled (list A) :=
  match ps with
  | [] => Fulfilled []
  | Rejected e :: _ => Rejected e
  | Fulfilled a :: ps' =>
      match Promise_all ps' with
      | Fulfilled l => Fulfilled (a :: l)
      | Rejected e => Rejected e
      end
  end.

(** ** Tactics and hints *)

Create HintDb player discriminated.
Create Rewrite HintDb player_rw.

(** Case analysis on the first boolean test or option match of the goal. *)
Ltac case_test :=
  match goal with
  | |- context [if ?b then _ else _] => destruct b eqn:?
  | |- context [match ?o with Some _ => _ | None => _ end] => destruct o eqn:?
  end.

(** ** Truthiness *)

Lemma truthy_Some_iff (s : string) : truthy (Some s) = true ↔ s ≠ "".
Proof. destruct s; simpl; split; congruence. Qed.

Lemma truthy_None : truthy None = false.
Proof. reflexivity. Qed.

Lemma truthy_is_Some (o : option string) : truthy o = true → is_Some o.
Proof. destruct o; [eauto | discriminate]. Qed.

#[export] Hint Rewrite truthy_None : player_rw.

(** ** [Promise.all] *)

Lemma Promise_all_fulfilled {A} (l : list A) :
  Promise_all (Fulfilled <$> l) = Fulfilled l.
Proof. induction l as [|a l IH]; csimpl; [done | by rewrite IH]. Qed.

Lemma Promise_all_Fulfilled_inv {A} (ps : list (Settled A)) (l : list A) :
  Promise_all ps = Fulfilled l → ps = Fulfilled <$> l.
Proof.
  revert l; induction ps as [|[a|e] ps IH]; intros l H; simpl in H.
  - by inv H.
  - destruct (Promise_all ps) as [l'|] eqn:E; inv H.
    csimpl. by rewrite (IH l' eq_refl).
  - discriminate.
Qed.

Lemma Promise_all_Rejected_inv {A} (ps : list (Settled A)) (e : JsError) :
  Promise_all ps = Rejected e → Rejected e ∈ ps.
Proof.
  induction ps as [|[a|e'] ps IH]; simpl; intros H.
  - discriminate.
  - destruct (Promise_all ps); [discriminate | inv H].
    right. by apply IH.
  - inv H. left.
Qed.

Lemma Promise_all_Fulfilled_iff {A} (ps : list (Settled A)) (l : list A) :
  Promise_all ps = Fulfilled l ↔ ps = Fulfilled <$> l.
Proof.
  split; [apply Promise_all_Fulfilled_inv | intros ->; apply Promise_all_fulfilled].
Qed.

(** One rejected promise rejects the whole. *)
Lemma Promise_all_rejects {A} (ps : list (Settled A)) (e : JsError) :
  Rejected e ∈ ps → ∃ e', Promise_all ps = Rejected e'.
Proof.
  induction ps as [|[a|e'] ps IH]; simpl.
  - by intros ?%elem_of_nil.
  - intros [?|Hin]%elem_of_cons; [done |].
    destruct (IH Hin) as [e' ->]. eauto.
  - eauto.
Qed.

(** The values of a fulfilled [Promise.all] are those of a map over the
    list, when every promise of the list was made by [g]. *)
Lemma Promise_all_fmap {A B} (g : A → Settled B) (f : A → B) (l : list A) :
  Forall (λ x, g x = Fulfilled (f x)) l →
  Promise_all (g <$> l) = Fulfilled (f <$> l).
Proof.
  induction 1 as [|x l Hx _ IH]; csimpl; [done |]. by rewrite Hx, IH.
Qed.

Lemma Promise_all_fmap_inv {A B} (g : A → Settled B) (f : A → B)
    (l : list A) (k : list B) :
  (∀ x y, g x = Fulfilled y → y = f x) →
  Promise_all (g <$> l) = Fulfilled k →
  k = f <$> l ∧ Forall (λ x, g x = Fulfilled (f x)) l.
Proof.
  intros Hg. revert k. induction l as [|x l IH]; intros k; csimpl.
  - by intros [= <-].
  - destruct (g x) as [y|] eqn:Ex; [|done].
    destruct (Promise_all (g <$> l)) as [k'|]; [|done]. intros [= <-].
    destruct (IH k' eq_refl) as [-> ?]. pose proof (Hg x y Ex) as ->.
    split; [done | by constructor].
Qed.

(** ** Lists: counting through [filter] when one position is deleted *)

Section list_facts.
Context {A : Type} (P : A → Prop) `{!∀ x, Decision (P x)}.

Lemma filter_delete_length (l : list A) (i : nat) (x : A) :
  l !! i = Some x →
  length (filter P l) =
    length (filter P (delete i l)) + (if decide (P x) then 1 else 0).
Proof.
  revert i; induction l as [|y l IH]; intros [|i] Hx; simplify_eq/=.
  - rewrite filter_cons. case_decide; simpl; lia.
  - rewrite !filter_cons. specialize (IH i Hx).
    destruct (decide (P y)); simpl; lia.
Qed.

Lemma filter_app_length (l k : list A) :
  length (filter P (l ++ k)) = length (filter P l) + length (filter P k).
Proof. by rewrite filter_app, length_app. Qed.

Lemma filter_length_zero_iff (l : list A) :
  length (filter P l) = 0 ↔ Forall (λ x, ¬ P x) l.
Proof.
  induction l as [|y l IH]; [by split; [constructor|] |].
  rewrite filter_cons, Forall_cons. destruct (decide (P y)); simpl.
  - split; [lia | tauto].
  - rewrite IH. tauto.
Qed.

(** At most one element passes a test that determines the key, when the
    keys of the list are distinct. *)
Lemma filter_length_le_1 {B} (f : A → B) (l : list A) :
  NoDup (f <$> l) →
  (∀ x y, x ∈ l → y ∈ l → P x → P y → f x = f y) →
  length (filter P l) ≤ 1.
Proof.
  induction l as [|x l IH]; csimpl; [lia |]. intros Hnd Hk.
  apply NoDup_cons in Hnd as [Hx Hnd]. rewrite filter_cons.
  destruct (decide (P x)) as [Hp|]; simpl.
  - enough (length (filter P l) = 0) as -> by lia.
    apply filter_length_zero_iff, Forall_forall. intros y Hy Hpy. apply Hx.
    rewrite (Hk x y); [by apply list_elem_of_fmap_2 | left | by right | done..].
  - apply IH; [done |]. intros y z ? ?. apply Hk; by right.
Qed.

End list_facts.
