(* ===== verification/Types.v ===== *)
(** * Types: the records of the program

    One module per record, so that a field keeps the name it has in the
    source ([Song.id], [SongCardProps.id], [Track.id]).  A field typed
    [T | null] (or optional) in the source is an [option]; a [Date] is the
    integer of its time value. *)

From Stdlib Require Import ZArith.
From stdpp Require Import base strings.
From S2P Require Import Prelude.

(** A row of the user table, as far as the fetcher selects it
    ([include: { user: { select: { name: true } } }]). *)
Module User.
Record t := mk {
  id : string;
  name : option string;
}.
End User.

(** A row of the song table, with the fields [home-songs-fetcher.tsx]
    reads. *)
Module Song.
Record t := mk {
  id : string;
  title : option string;
  createdAt : Z;
  instrumental : bool;
  prompt : option string;
  lyrics : option string;
  describedLyrics : option string;
  fullDescribedSong : option string;
  thumbnailS3Key : option string;
  status : option string;
  userId : string;
  published : bool;
}.
End Song.

(** [SongCardProps] without [onCardClick]: the data of a card, which is also
    the element type of [SongGrid]'s [songs] and the type of its
    [selectedSong].  [isOwnSong] is optional in the source. *)
Module SongCardProps.
Record t := mk {
  id : string;
  title : option string;
  createdAt : Z;
  instrumental : bool;
  prompt : option string;
  lyrics : option string;
  describedLyrics : option string;
  fullDescribedSong : option string;
  thumbnailUrl : option string;
  playUrl : option string;
  status : option string;
  createdByUserName : option string;
  published : bool;
  isOwnSong : option bool;
}.
End SongCardProps.

(** What the player store holds. *)
Module Track.
Record t := mk {
  id : string;
  title : option string;
  url : option string;
  artwork : option string;
  prompt : option string;
  createdByUserName : option string;
}.
End Track.

#[export] Instance User_eq_dec : EqDecision User.t.
Proof. solve_decision. Defined.

#[export] Instance Song_eq_dec : EqDecision Song.t.
Proof. solve_decision. Defined.

#[export] Instance SongCardProps_eq_dec : EqDecision SongCardProps.t.
Proof. solve_decision. Defined.

#[export] Instance Track_eq_dec : EqDecision Track.t.
Proof. solve_decision. Defined.

#[export] Instance SongCardProps_inhabited : Inhabited SongCardProps.t :=
  populate (SongCardProps.mk "" None 0 false None None None None None None
              None None false None).

(** The ids of a list of props: the React keys of the cards. *)
Definition ids (songs : list SongCardProps.t) : list string :=
  SongCardProps.id <$> songs.

(** The first song of a list with a given id: the card React mounts under
    that key. *)
Definition find_song (id : string) (songs : list SongCardProps.t)
  : option SongCardProps.t :=
  snd <$> list_find (λ p, SongCardProps.id p = id) songs.

Lemma find_song_Some id songs p :
  find_song id songs = Some p → p ∈ songs ∧ SongCardProps.id p = id.
Proof.
  unfold find_song. intros ([i q] & E & ->)%fmap_Some.
  apply list_find_Some in E as (Hi & Hq & _).
  split; [by eapply list_elem_of_lookup_2 | done].
Qed.

Lemma find_song_None id songs :
  find_song id songs = None ↔ id ∉ ids songs.
Proof.
  unfold find_song, ids. rewrite fmap_None, list_find_None, Forall_forall.
  rewrite list_elem_of_fmap. naive_solver.
Qed.

Lemma find_song_is_Some id songs :
  is_Some (find_song id songs) ↔ id ∈ ids songs.
Proof.
  rewrite <- not_eq_None_Some, find_song_None.
  destruct (decide (id ∈ ids songs)); naive_solver.
Qed.

Lemma find_song_elem_of songs p :
  NoDup (ids songs) → p ∈ songs →
  find_song (SongCardProps.id p) songs = Some p.
Proof.
  intros Hnd Hp.
  destruct (find_song (SongCardProps.id p) songs) as [q|] eqn:E.
  - apply find_song_Some in E as [Hq Hid].
    f_equal. apply list_elem_of_lookup in Hp as [i Hi], Hq as [j Hj].
    assert (i = j); [|by simplify_eq].
    eapply NoDup_lookup; [done | |]; unfold ids;
      rewrite list_lookup_fmap; [by rewrite Hi | by rewrite Hj; simpl; f_equal].
  - apply find_song_None in E. destruct E.
    unfold ids. by apply list_elem_of_fmap_2.
Qed.

Lemma find_song_nil id : find_song id [] = None.
Proof. reflexivity. Qed.

#[export] Hint Resolve find_song_Some find_song_elem_of : player.
