(* ===== verification/Store.v ===== *)
(** * Store: the player store and its contract

    [usePlayerStore] is imported by the card and by the grid from
    [~/stores/use-player-store]; both destructure [{ track, setTrack }] and
    nothing else.  The class [PlayerStoreOps] is what they rely on; the
    components and the client are proved against it, so their theorems hold
    for every store that satisfies the two laws.  [SlotStore] is the single
    slot the spec describes. *)

From stdpp Require Import base option.
From S2P Require Import Prelude Types.

(** The contract: a store state [St] that can be read and written. *)
Class PlayerStoreOps (St : Type) := {
  (** the state a new store starts in *)
  emptyStore : St;
  (** the [track] the hook returns *)
  getTrack : St → option Track.t;
  (** the [setTrack] the hook returns *)
  setTrack : Track.t → St → St;
  getTrack_emptyStore : getTrack emptyStore = None;
  getTrack_setTrack t s : getTrack (setTrack t s) = Some t;
}.

(** The single slot: the whole state is the current track. *)
Record SlotStore := { track : option Track.t }.

Definition SlotStore_setTrack (t : Track.t) (s : SlotStore) : SlotStore :=
  {| track := Some t |}.

#[export] Instance SlotStore_eq_dec : EqDecision SlotStore.
Proof. solve_decision. Defined.

#[export] Instance SlotStore_ops : PlayerStoreOps SlotStore := {|
  emptyStore := {| track := None |};
  getTrack := track;
  setTrack := SlotStore_setTrack;
  getTrack_emptyStore := eq_refl;
  getTrack_setTrack _ _ := eq_refl;
|}.

(** Writing a list of tracks, first to last. *)
Definition setTracks `{PlayerStoreOps St} (ts : list Track.t) (s : St) : St :=
  foldl (λ s t, setTrack t s) s ts.

#[export] Hint Rewrite @getTrack_emptyStore @getTrack_setTrack : player_rw.

Section contract.
Context `{PlayerStoreOps St}.
Implicit Types (s : St) (t : Track.t).

Lemma setTracks_snoc ts t s :
  setTracks (ts ++ [t]) s = setTrack t (setTracks ts s).
Proof. unfold setTracks. by rewrite foldl_app. Qed.

Lemma getTrack_setTracks ts s :
  getTrack (setTracks ts s) = from_option Some (getTrack s) (last ts).
Proof.
  induction ts as [|t ts IH] using rev_ind; [done |].
  by rewrite setTracks_snoc, getTrack_setTrack, last_snoc.
Qed.

(** What a reader sees does not depend on what the store held before the
    write: there is no merging with the previous track. *)
Lemma getTrack_setTrack_indep t s s' :
  getTrack (setTrack t s) = getTrack (setTrack t s').
Proof. by rewrite !getTrack_setTrack. Qed.

End contract.

Lemma SlotStore_setTrack_idem t s :
  SlotStore_setTrack t (SlotStore_setTrack t s) = SlotStore_setTrack t s.
Proof. reflexivity. Qed.

Lemma SlotStore_ext (s s' : SlotStore) : getTrack s = getTrack s' → s = s'.
Proof. destruct s, s'; simpl; congruence. Qed.
