(* ===== verification/Effects.v ===== *)
(** * Effects: what a handler asks of its environment

    A handler of the card or of the grid returns the new value of its
    [useState] cells and a list of commands, in the order the source makes
    the calls.  The client ([App]) interprets them.  The closures the
    program creates are data here: [Callback] for the [onCardClick] prop,
    [Awaiting] for the code after an [await]. *)

From stdpp Require Import base option list.
From S2P Require Import Prelude Types.

(** The [onCardClick] closures the grid passes to its cards:
    [() => handleCardClick(song)]. *)
Inductive Callback :=
| SelectSong (song : SongCardProps.t).

(** The code that waits for [getPlayUrl]: the rest of a play handler or of a
    download handler. *)
Inductive Awaiting :=
| AwaitPlay
| AwaitDownload.

Inductive Cmd :=
| StopPropagation                                   (* e.stopPropagation() *)
| CallGetPlayUrl (songId : string) (k : Awaiting)   (* await getPlayUrl(id) *)
| SetTrack (t : Track.t)                            (* setTrack({...}) *)
| ConsoleError (label text : string)                (* console.error(label, text) *)
| WindowOpen (url target : string)                  (* window.open(url, target) *)
| Invoke (cb : Callback).                           (* onCardClick?.() *)

#[export] Instance Callback_eq_dec : EqDecision Callback.
Proof. solve_decision. Defined.

#[export] Instance Awaiting_eq_dec : EqDecision Awaiting.
Proof. solve_decision. Defined.

#[export] Instance Cmd_eq_dec : EqDecision Cmd.
Proof. solve_decision. Defined.

(** The object both play handlers pass to [setTrack]. *)
Definition track_of (song : SongCardProps.t) (playUrl : string) : Track.t :=
  {| Track.id := SongCardProps.id song;
     Track.title := SongCardProps.title song;
     Track.url := Some playUrl;
     Track.artwork := SongCardProps.thumbnailUrl song;
     Track.prompt := SongCardProps.prompt song;
     Track.createdByUserName := SongCardProps.createdByUserName song |}.

(** The commands of a list that write the store. *)
Definition writes (cmds : list Cmd) : list Track.t :=
  omap (λ c, match c with SetTrack t => Some t | _ => None end) cmds.

(** The requests a list of commands sends. *)
Definition requests (cmds : list Cmd) : list (string * Awaiting) :=
  omap (λ c, match c with CallGetPlayUrl i k => Some (i, k) | _ => None end)
       cmds.

(** Whether a handler stopped the event from reaching the enclosing
    element. *)
Definition stops (cmds : list Cmd) : bool :=
  existsb (λ c, match c with StopPropagation => true | _ => false end) cmds.

Lemma track_of_id song playUrl :
  Track.id (track_of song playUrl) = SongCardProps.id song.
Proof. reflexivity. Qed.

Lemma track_of_url song playUrl :
  Track.url (track_of song playUrl) = Some playUrl.
Proof. reflexivity. Qed.

Lemma track_of_inj song song' u u' :
  track_of song u = track_of song' u' →
  SongCardProps.id song = SongCardProps.id song' ∧ u = u'.
Proof. unfold track_of. intros [=]. done. Qed.

Lemma writes_app c1 c2 : writes (c1 ++ c2) = writes c1 ++ writes c2.
Proof. apply omap_app. Qed.

Lemma requests_app c1 c2 : requests (c1 ++ c2) = requests c1 ++ requests c2.
Proof. apply omap_app. Qed.

#[export] Hint Rewrite track_of_id track_of_url : player_rw.
