(* ===== verification/Card.v ===== *)
(** * Card: the component [SongCard] of [song-card.tsx]

    [State] is the component's two [useState] cells.  Each handler is a
    function of the props and the state that returns the new state and the
    commands it issues; the two asynchronous handlers are split at their
    [await].  [render] keeps every conditional piece of the markup and
    drops the class names. *)

From stdpp Require Import base option list.
From S2P Require Import Prelude Types Effects.

Module SongCard.

(** [const [isLoading, setIsLoading] = useState(false)] and
    [const [isHovered, setIsHovered] = useState(false)]. *)
Record State := {
  isLoading : bool;
  isHovered : bool;
}.

Definition initial : State := {| isLoading := false; isHovered := false |}.

Definition setIsLoading (b : bool) (s : State) : State :=
  {| isLoading := b; isHovered := isHovered s |}.

Definition setIsHovered (b : bool) (s : State) : State :=
  {| isLoading := isLoading s; isHovered := b |}.

(** [track?.id === id] *)
Definition isCurrentTrack (track : option Track.t) (id : string) : bool :=
  bool_decide (Track.id <$> track = Some id).

(** [isCurrentTrack && track?.url], as the conditional that reads it sees
    it. *)
Definition isPlaying (track : option Track.t) (id : string) : bool :=
  isCurrentTrack track id && truthy (track ≫= Track.url).

(** [handlePlayPause] up to its [await]. *)
Definition handlePlayPause (p : SongCardProps.t) (s : State)
  : State * list Cmd :=
  if isLoading s then (s, [StopPropagation])
  else (setIsLoading true s,
        [StopPropagation; CallGetPlayUrl (SongCardProps.id p) AwaitPlay]).

(** [handlePlayPause] from the [await] on: the [try] body when the promise
    is fulfilled, the [catch] when it is rejected, the [finally] in both. *)
Definition handlePlayPause_settled (p : SongCardProps.t) (r : Settled string)
    (s : State) : State * list Cmd :=
  match r with
  | Fulfilled playUrl =>
      (setIsLoading false s, [SetTrack (track_of p playUrl)])
  | Rejected error =>
      (setIsLoading false s,
       [ConsoleError "Failed to play track:" (error_text error)])
  end.

(** [handleCardClick]: [onCardClick?.()]. *)
Definition handleCardClick (onCardClick : option Callback) (s : State)
  : State * list Cmd :=
  (s, match onCardClick with Some cb => [Invoke cb] | None => [] end).

(** [handleDownload] up to its [await]. *)
Definition handleDownload (p : SongCardProps.t) (s : State)
  : State * list Cmd :=
  (s, [StopPropagation; CallGetPlayUrl (SongCardProps.id p) AwaitDownload]).

(** [handleDownload] from the [await] on. *)
Definition handleDownload_settled (r : Settled string) (s : State)
  : State * list Cmd :=
  match r with
  | Fulfilled playUrl => (s, [WindowOpen playUrl "_blank"])
  | Rejected error =>
      (s, [ConsoleError "Failed to download track:" (error_text error)])
  end.

(** [onMouseEnter] and [onMouseLeave] of the card. *)
Definition onMouseEnter (s : State) : State := setIsHovered true s.
Definition onMouseLeave (s : State) : State := setIsHovered false s.

(** Where a click lands inside the card: on the play button
    ([onClick={handlePlayPause}]), on the download item of the menu
    ([onClick={handleDownload}]), or on any element with no click handler
    of its own (the picture, the texts, the badges, the button that opens
    the menu). *)
Inductive Target := PlayButton | DownloadItem | CardBody.

(** A click runs the handler of the element it lands on and then, unless
    that handler stopped the event, the [onClick] of the enclosing card,
    which is [handleCardClick]. *)
Definition click (target : Target) (p : SongCardProps.t)
    (onCardClick : option Callback) (s : State) : State * list Cmd :=
  let '(s1, c1) :=
    match target with
    | PlayButton => handlePlayPause p s
    | DownloadItem => handleDownload p s
    | CardBody => (s, [])
    end in
  if stops c1 then (s1, c1)
  else let '(s2, c2) := handleCardClick onCardClick s1 in (s2, c1 ++ c2).

(** ** The markup *)

Inductive Icon := Loader2 | Pause | Play.

Inductive Thumb :=
| Img (src alt : string)
| MusicFallback.

Inductive Badge := YourSong | Instrumental | Published.

Record View := {
  thumb : Thumb;
  overlayVisible : bool;
  buttonDisabled : bool;
  buttonIcon : Icon;
  titleText : string;
  promptText : string;
  ownerText : option string;
  badges : list Badge;
}.

#[global] Instance State_eq_dec : EqDecision State.
Proof. solve_decision. Defined.
#[global] Instance Icon_eq_dec : EqDecision Icon.
Proof. solve_decision. Defined.
#[global] Instance Thumb_eq_dec : EqDecision Thumb.
Proof. solve_decision. Defined.
#[global] Instance Target_eq_dec : EqDecision Target.
Proof. solve_decision. Defined.
#[global] Instance Badge_eq_dec : EqDecision Badge.
Proof. solve_decision. Defined.
#[global] Instance View_eq_dec : EqDecision View.
Proof. solve_decision. Defined.
#[global] Instance State_inhabited : Inhabited State := populate initial.

(** [thumbnailUrl ? <img src=... alt={title ?? "Song thumbnail"}/> : ...] *)
Definition render_thumb (thumbnailUrl title : option string) : Thumb :=
  if truthy thumbnailUrl
  then Img (thumbnailUrl ?? "")%js (title ?? "Song thumbnail")%js
  else MusicFallback.

(** [isLoading ? <Loader2/> : isPlaying ? <Pause/> : <Play/>] *)
Definition render_icon (loading playing : bool) : Icon :=
  if loading then Loader2 else if playing then Pause else Play.

(** [{c && <Badge/>}] *)
Definition badge_if (c : bool) (b : Badge) : list Badge :=
  if c then [b] else [].

Definition render (p : SongCardProps.t) (s : State) (track : option Track.t)
  : View :=
  let id := SongCardProps.id p in
  let isOwnSong := default false (SongCardProps.isOwnSong p) in
  {| thumb := render_thumb (SongCardProps.thumbnailUrl p) (SongCardProps.title p);
     overlayVisible := isHovered s || isCurrentTrack track id;
     buttonDisabled := isLoading s;
     buttonIcon := render_icon (isLoading s) (isPlaying track id);
     titleText := (SongCardProps.title p ?? "Untitled")%js;
     promptText := (SongCardProps.prompt p ?? "No description")%js;
     ownerText :=
       if isOwnSong then Some "You" else SongCardProps.createdByUserName p;
     badges :=
       badge_if isOwnSong YourSong
       ++ badge_if (SongCardProps.instrumental p) Instrumental
       ++ badge_if (SongCardProps.published p) Published |}.

(** ** The derived flags *)

Lemma isCurrentTrack_true track id :
  isCurrentTrack track id = true ↔ ∃ t, track = Some t ∧ Track.id t = id.
Proof.
  unfold isCurrentTrack. rewrite bool_decide_eq_true, fmap_Some.
  naive_solver.
Qed.

Lemma isCurrentTrack_None id : isCurrentTrack None id = false.
Proof. reflexivity. Qed.

Lemma isCurrentTrack_Some t id :
  isCurrentTrack (Some t) id = bool_decide (Track.id t = id).
Proof.
  unfold isCurrentTrack. simpl. apply bool_decide_ext. naive_solver.
Qed.

Lemma isPlaying_Some t id :
  isPlaying (Some t) id = bool_decide (Track.id t = id) && truthy (Track.url t).
Proof. unfold isPlaying. by rewrite isCurrentTrack_Some. Qed.

Lemma isPlaying_None id : isPlaying None id = false.
Proof. reflexivity. Qed.

Lemma isPlaying_isCurrentTrack track id :
  isPlaying track id = true → isCurrentTrack track id = true.
Proof. unfold isPlaying. by intros [? _]%andb_true_iff. Qed.

Lemma isPlaying_track_of p u id :
  isPlaying (Some (track_of p u)) id
  = bool_decide (SongCardProps.id p = id) && truthy (Some u).
Proof. by rewrite isPlaying_Some. Qed.

#[global] Hint Rewrite isCurrentTrack_None isCurrentTrack_Some
  isPlaying_None isPlaying_Some : player_rw.

(** C30.  A card is shown as playing exactly when the store holds a track
    with the card's id whose url is truthy (present and not the empty
    string). *)
Theorem isPlaying_iff track id :
  isPlaying track id = true ↔
  ∃ t, track = Some t ∧ Track.id t = id ∧ truthy (Track.url t) = true.
Proof.
  destruct track as [t|]; autorewrite with player_rw.
  - rewrite andb_true_iff, bool_decide_eq_true. naive_solver.
  - split; [done | by intros (? & ? & _)].
Qed.

(** Two cards that both show as playing have the same id: the store holds
    one track. *)
Lemma isPlaying_unique track id id' :
  isPlaying track id = true → isPlaying track id' = true → id = id'.
Proof.
  unfold isPlaying, isCurrentTrack.
  intros [?%bool_decide_eq_true _]%andb_true_iff
         [?%bool_decide_eq_true _]%andb_true_iff.
  destruct track; simplify_eq/=. done.
Qed.

(** C31.  A track whose url is the empty string is current and not null,
    and its card is not shown as playing: the test is truthiness, not
    [url != null]. *)
Theorem isPlaying_empty_url t :
  Track.url t = Some "" →
  isCurrentTrack (Some t) (Track.id t) = true ∧
  isPlaying (Some t) (Track.id t) = false.
Proof.
  intros Hu. autorewrite with player_rw. rewrite Hu, bool_decide_true by done.
  done.
Qed.

Lemma isPlaying_empty_url_witness :
  let t := Track.mk "s1" None (Some "") None None None in
  isCurrentTrack (Some t) (Track.id t) = true ∧
  isPlaying (Some t) (Track.id t) = false.
Proof. intros t. apply (isPlaying_empty_url t). reflexivity. Defined.

(** ** The play handler *)

Lemma card_setIsLoading_same s : setIsLoading (isLoading s) s = s.
Proof. by destruct s. Qed.

Lemma card_isLoading_setIsLoading b s : isLoading (setIsLoading b s) = b.
Proof. reflexivity. Qed.

Lemma card_isHovered_setIsLoading b s : isHovered (setIsLoading b s) = isHovered s.
Proof. reflexivity. Qed.

#[global] Hint Rewrite card_isLoading_setIsLoading card_isHovered_setIsLoading
  : player_rw.

(** A play click on a card that is loading changes nothing and sends
    no request: the handler is not reentrant. *)
Theorem card_handlePlayPause_loading p s :
  isLoading s = true →
  handlePlayPause p s = (s, [StopPropagation]) ∧
  requests (handlePlayPause p s).2 = [].
Proof. intros Hl. unfold handlePlayPause. by rewrite Hl. Qed.

Lemma card_handlePlayPause_loading_witness :
  let s := {| isLoading := true; isHovered := false |} in
  handlePlayPause inhabitant s = (s, [StopPropagation]) ∧
  requests (handlePlayPause inhabitant s).2 = [].
Proof. intros s. apply (card_handlePlayPause_loading inhabitant s). reflexivity. Defined.

(** C32.  Two play clicks in a row: the second one changes nothing and sends no
    request, whatever the card's state was. *)
Theorem card_handlePlayPause_twice p s :
  handlePlayPause p (handlePlayPause p s).1
  = ((handlePlayPause p s).1, [StopPropagation]) ∧
  length (requests (handlePlayPause p s).2
          ++ requests (handlePlayPause p (handlePlayPause p s).1).2) ≤ 1.
Proof.
  unfold handlePlayPause.
  destruct (isLoading s) eqn:E; simpl; rewrite ?E; simpl; split; done || lia.
Qed.

(** A play click on a card that is not loading sets the flag and sends one
    request for the card's id. *)
Lemma card_handlePlayPause_idle p s :
  isLoading s = false →
  handlePlayPause p s
  = (setIsLoading true s,
     [StopPropagation; CallGetPlayUrl (SongCardProps.id p) AwaitPlay]).
Proof. intros Hl. unfold handlePlayPause. by rewrite Hl. Qed.

(** The number of requests a play click sends is one when the card was not
    loading and none when it was; the flag is set afterwards either way. *)
Lemma card_handlePlayPause_requests p s :
  requests (handlePlayPause p s).2
  = if isLoading s then [] else [(SongCardProps.id p, AwaitPlay)].
Proof. unfold handlePlayPause. by destruct (isLoading s). Qed.

Lemma card_handlePlayPause_isLoading p s :
  isLoading (handlePlayPause p s).1 = true.
Proof. unfold handlePlayPause. by destruct (isLoading s) eqn:E. Qed.

Lemma card_handlePlayPause_stops p s : stops (handlePlayPause p s).2 = true.
Proof. unfold handlePlayPause. by destruct (isLoading s). Qed.

Lemma card_handlePlayPause_writes p s : writes (handlePlayPause p s).2 = [].
Proof. unfold handlePlayPause. by destruct (isLoading s). Qed.

(** The [finally] block: the flag is cleared however the promise
    settled, and the hover flag is kept. *)
Lemma card_settled_state p r s :
  (handlePlayPause_settled p r s).1 = setIsLoading false s.
Proof. by destruct r. Qed.

(** When the promise of a play click is rejected the card writes
    nothing to the store, logs the text of the error and clears its loading
    flag. *)
Theorem card_settled_rejected p e s :
  handlePlayPause_settled p (Rejected e) s
  = (setIsLoading false s,
     [ConsoleError "Failed to play track:" (error_text e)]) ∧
  writes (handlePlayPause_settled p (Rejected e) s).2 = [].
Proof. done. Qed.

(** C33.  A play click and the settling of its promise, together: the card is
    as before with its flag cleared, one request was sent if the card was
    not loading, and a track is written exactly when the promise was
    fulfilled. *)
Theorem card_play_roundtrip p r s :
  let '(s1, c1) := handlePlayPause p s in
  let '(s2, c2) := handlePlayPause_settled p r s1 in
  s2 = setIsLoading false s ∧
  writes (c1 ++ c2)
  = match r with Fulfilled u => [track_of p u] | Rejected _ => [] end.
Proof. unfold handlePlayPause. by destruct (isLoading s), r. Qed.

(** When it is fulfilled the card writes exactly one track, built from its
    props and the url. *)
Lemma card_settled_fulfilled_writes p u s :
  writes (handlePlayPause_settled p (Fulfilled u) s).2 = [track_of p u].
Proof. reflexivity. Qed.

Lemma card_settled_requests p r s :
  requests (handlePlayPause_settled p r s).2 = [].
Proof. by destruct r. Qed.

(** ** The download handler *)

(** Neither part of the download handler writes the store or
    changes the card's state. *)
Lemma card_handleDownload_pure p r s :
  (handleDownload p s).1 = s ∧ writes (handleDownload p s).2 = [] ∧
  (handleDownload_settled r s).1 = s ∧
  writes (handleDownload_settled r s).2 = [].
Proof. by destruct r. Qed.

Lemma card_handleDownload_settled_requests r s :
  requests (handleDownload_settled r s).2 = [].
Proof. by destruct r. Qed.

(** ** Clicks *)

Lemma click_PlayButton p cb s :
  click PlayButton p cb s = handlePlayPause p s.
Proof.
  unfold click. destruct (handlePlayPause p s) as [s1 c1] eqn:E.
  pose proof (card_handlePlayPause_stops p s) as Hs.
  rewrite E in Hs. simpl in Hs. by rewrite Hs.
Qed.

Lemma click_DownloadItem p cb s :
  click DownloadItem p cb s = handleDownload p s.
Proof. reflexivity. Qed.

Lemma click_CardBody p cb s :
  click CardBody p cb s = handleCardClick cb s.
Proof. reflexivity. Qed.

(** C34.  A click on the play button or on the download item never reaches
    the card's own click handler: the [onCardClick] callback runs only for
    a click on the rest of the card, and then exactly once. *)
Theorem click_invokes target p cb s :
  omap (λ c, match c with Invoke k => Some k | _ => None end)
       (click target p (Some cb) s).2
  = if decide (target = CardBody) then [cb] else [].
Proof.
  destruct target; rewrite ?click_PlayButton, ?click_DownloadItem,
    ?click_CardBody; unfold handlePlayPause; simpl;
    by repeat case_test.
Qed.

(** ** The markup *)

(** The play button is disabled exactly when a click on it would be
    ignored by the handler's guard. *)
Theorem card_disabled_iff_guard p s track :
  buttonDisabled (render p s track) = true ↔
  handlePlayPause p s = (s, [StopPropagation]).
Proof.
  unfold handlePlayPause. simpl. by destruct (isLoading s).
Qed.

(** The icon of the play button: the spinner while loading, the pause
    sign when the card is playing and not loading, the play sign
    otherwise. *)
Theorem card_buttonIcon_cases p s track :
  buttonIcon (render p s track) =
    if isLoading s then Loader2
    else if isPlaying track (SongCardProps.id p) then Pause else Play.
Proof. reflexivity. Qed.

Lemma card_buttonIcon_Pause p s track :
  buttonIcon (render p s track) = Pause ↔
  isLoading s = false ∧ isPlaying track (SongCardProps.id p) = true.
Proof.
  rewrite card_buttonIcon_cases.
  destruct (isLoading s), (isPlaying _ _); naive_solver.
Qed.

(** Among the cards of a list, those that show the pause sign are cards of
    songs that play. *)
Lemma card_Pause_count (l : list SongCardProps.t) (cs : string → State) track :
  length (filter (λ c, buttonIcon c = Pause)
            ((λ p, render p (cs (SongCardProps.id p)) track) <$> l))
  ≤ length (filter (λ p, isPlaying track (SongCardProps.id p) = true) l).
Proof.
  induction l as [|p l IH]; csimpl; [done |]. rewrite !filter_cons.
  destruct (decide (buttonIcon _ = _)) as [Hp|];
    destruct (decide (isPlaying _ _ = _)); simpl; try lia.
  by apply card_buttonIcon_Pause in Hp as [_ ?].
Qed.

(** The overlay of the current track stays visible without hovering. *)
Lemma card_overlay_current p s track :
  isCurrentTrack track (SongCardProps.id p) = true →
  overlayVisible (render p s track) = true.
Proof. simpl. intros ->. apply orb_true_r. Qed.

(** The owner line is "You" exactly for a song marked as the
    viewer's own; any other card shows the creator's name, or nothing when
    there is none.  A card whose props leave [isOwnSong] out counts as not
    own. *)
Theorem card_ownerText p s track :
  ownerText (render p s track) =
    match SongCardProps.isOwnSong p with
    | Some true => Some "You"
    | _ => SongCardProps.createdByUserName p
    end.
Proof. simpl. by destruct (SongCardProps.isOwnSong p) as [[]|]. Qed.

Lemma card_badge_YourSong p s track :
  YourSong ∈ badges (render p s track) ↔
  SongCardProps.isOwnSong p = Some true.
Proof.
  simpl. unfold badge_if.
  destruct (SongCardProps.isOwnSong p) as [[]|], (SongCardProps.instrumental p),
    (SongCardProps.published p); simpl;
    rewrite ?elem_of_cons, ?elem_of_nil; naive_solver.
Qed.

(** An empty title is shown as such; only a missing one becomes
    "Untitled". *)
Lemma card_titleText p s track :
  titleText (render p s track) =
    match SongCardProps.title p with Some t => t | None => "Untitled" end.
Proof. simpl. by destruct (SongCardProps.title p). Qed.

Lemma render_thumb_Img thumbnailUrl title src alt :
  render_thumb thumbnailUrl title = Img src alt ↔
  thumbnailUrl = Some src ∧ src ≠ "" ∧ alt = (title ?? "Song thumbnail")%js.
Proof.
  unfold render_thumb. destruct thumbnailUrl as [[|a u]|]; simpl;
    naive_solver.
Qed.

End SongCard.
