(* ===== verification/Grid.v ===== *)
(** * Grid: the component [SongGrid] of [song-grid.tsx]

    [State] is the component's two [useState] cells: the song the detail
    dialog shows and one loading flag for the dialog's play button,
    whichever song it shows.  Handlers are written as in [Card]; they take
    the song as an argument, as in the source, and receive no event.
    [render] is the empty state when the list is empty and otherwise the
    cards in the list's order, followed by the dialog when a song is
    selected. *)

From stdpp Require Import base option list.
From S2P Require Import Prelude Types Effects Card.

Module SongGrid.

(** [const [selectedSong, setSelectedSong] = useState(null)] and
    [const [isLoading, setIsLoading] = useState(false)]. *)
Record State := {
  selectedSong : option SongCardProps.t;
  isLoading : bool;
}.

Definition initial : State := {| selectedSong := None; isLoading := false |}.

Definition setSelectedSong (o : option SongCardProps.t) (s : State) : State :=
  {| selectedSong := o; isLoading := isLoading s |}.

Definition setIsLoading (b : bool) (s : State) : State :=
  {| selectedSong := selectedSong s; isLoading := b |}.

(** [handleCardClick]. *)
Definition handleCardClick (song : SongCardProps.t) (s : State) : State :=
  setSelectedSong (Some song) s.

(** The closure passed as [onCardClick] to the card of [song]. *)
Definition onCardClick (song : SongCardProps.t) : Callback := SelectSong song.

(** Calling an [onCardClick] closure. *)
Definition run_callback (cb : Callback) (s : State) : State :=
  match cb with SelectSong song => handleCardClick song s end.

(** [onOpenChange] of the dialog and [onClick] of its close button. *)
Definition closeDialog (s : State) : State := setSelectedSong None s.

(** [handlePlayPause] up to its [await]. *)
Definition handlePlayPause (song : SongCardProps.t) (s : State)
  : State * list Cmd :=
  if isLoading s then (s, [])
  else (setIsLoading true s,
        [CallGetPlayUrl (SongCardProps.id song) AwaitPlay]).

(** [handlePlayPause] from the [await] on. *)
Definition handlePlayPause_settled (song : SongCardProps.t)
    (r : Settled string) (s : State) : State * list Cmd :=
  match r with
  | Fulfilled playUrl =>
      (setIsLoading false s, [SetTrack (track_of song playUrl)])
  | Rejected error =>
      (setIsLoading false s,
       [ConsoleError "Failed to play track:" (error_text error)])
  end.

(** [handleDownload] up to its [await]. *)
Definition handleDownload (song : SongCardProps.t) (s : State)
  : State * list Cmd :=
  (s, [CallGetPlayUrl (SongCardProps.id song) AwaitDownload]).

(** [handleDownload] from the [await] on. *)
Definition handleDownload_settled (r : Settled string) (s : State)
  : State * list Cmd :=
  match r with
  | Fulfilled playUrl => (s, [WindowOpen playUrl "_blank"])
  | Rejected error =>
      (s, [ConsoleError "Failed to download track:" (error_text error)])
  end.

(** [track?.id === songId] *)
Definition isCurrentTrack (track : option Track.t) (songId : string) : bool :=
  bool_decide (Track.id <$> track = Some songId).

(** [isCurrentTrack(songId) && track?.url] *)
Definition isPlaying (track : option Track.t) (songId : string) : bool :=
  isCurrentTrack track songId && truthy (track ≫= Track.url).

(** ** The markup *)

Record DialogView := {
  d_thumb : SongCard.Thumb;
  d_buttonDisabled : bool;
  d_buttonIcon : SongCard.Icon;
  d_title : string;
  d_owner : option string;
  d_badges : list SongCard.Badge;
  d_description : option string;
  d_lyrics : option string;
}.

Inductive View :=
| EmptyState
| Library (cards : list SongCard.View) (dialog : option DialogView).

#[global] Instance State_eq_dec : EqDecision State.
Proof. solve_decision. Defined.
#[global] Instance DialogView_eq_dec : EqDecision DialogView.
Proof. solve_decision. Defined.
#[global] Instance View_eq_dec : EqDecision View.
Proof. solve_decision. Defined.

(** [{text && <section>...</section>}]: the section is there when the text
    is truthy. *)
Definition section_if (text : option string) : option string :=
  if truthy text then text else None.

Definition render_dialog (selected : SongCardProps.t) (s : State)
    (track : option Track.t) : DialogView :=
  {| d_thumb :=
       SongCard.render_thumb (SongCardProps.thumbnailUrl selected)
                             (SongCardProps.title selected);
     d_buttonDisabled := isLoading s;
     d_buttonIcon :=
       SongCard.render_icon (isLoading s)
                            (isPlaying track (SongCardProps.id selected));
     d_title := (SongCardProps.title selected ?? "Untitled")%js;
     d_owner := SongCardProps.createdByUserName selected;
     d_badges :=
       SongCard.badge_if (SongCardProps.instrumental selected)
                         SongCard.Instrumental
       ++ SongCard.badge_if (SongCardProps.published selected)
                            SongCard.Published;
     d_description := section_if (SongCardProps.prompt selected);
     d_lyrics := section_if (SongCardProps.lyrics selected) |}.

(** The component's return value.  [card_state] gives the state of the card
    mounted under a key, [track] is what the store holds. *)
Definition render (songs : list SongCardProps.t) (s : State)
    (track : option Track.t) (card_state : string → SongCard.State) : View :=
  if bool_decide (length songs = 0) then EmptyState
  else
    Library
      ((λ song, SongCard.render song (card_state (SongCardProps.id song)) track)
         <$> songs)
      ((λ selected, render_dialog selected s track) <$> selectedSong s).

(** ** The derived flags *)

Lemma isPlaying_card track songId :
  isPlaying track songId = SongCard.isPlaying track songId.
Proof. reflexivity. Qed.

Lemma isCurrentTrack_card track songId :
  isCurrentTrack track songId = SongCard.isCurrentTrack track songId.
Proof. reflexivity. Qed.

(** ** The state *)

Lemma grid_isLoading_setIsLoading b s : isLoading (setIsLoading b s) = b.
Proof. reflexivity. Qed.

Lemma grid_selectedSong_setIsLoading b s :
  selectedSong (setIsLoading b s) = selectedSong s.
Proof. reflexivity. Qed.

Lemma grid_isLoading_setSelectedSong o s :
  isLoading (setSelectedSong o s) = isLoading s.
Proof. reflexivity. Qed.

Lemma grid_selectedSong_setSelectedSong o s :
  selectedSong (setSelectedSong o s) = o.
Proof. reflexivity. Qed.

#[global] Hint Rewrite grid_isLoading_setIsLoading grid_selectedSong_setIsLoading
  grid_isLoading_setSelectedSong grid_selectedSong_setSelectedSong : player_rw.

(** Opening and closing the dialog do not touch the loading flag, and
    closing after opening restores the state when no song was selected. *)
Lemma closeDialog_handleCardClick song s :
  selectedSong s = None → closeDialog (handleCardClick song s) = s.
Proof. destruct s; simpl; intros ->; reflexivity. Qed.

Lemma run_callback_onCardClick song s :
  run_callback (onCardClick song) s = setSelectedSong (Some song) s.
Proof. reflexivity. Qed.

(** ** The play handler *)

(** The dialog's guard is one flag for the whole grid: while a play
    request of the dialog is in flight, a play click in the dialog sends
    nothing, whichever song the dialog shows by then. *)
Theorem grid_handlePlayPause_loading song s :
  isLoading s = true → handlePlayPause song s = (s, []).
Proof. intros Hl. unfold handlePlayPause. by rewrite Hl. Qed.

Lemma grid_handlePlayPause_loading_witness :
  let s := {| selectedSong := None; isLoading := true |} in
  handlePlayPause inhabitant s = (s, []).
Proof. intros s. apply (grid_handlePlayPause_loading inhabitant s). reflexivity. Defined.

Lemma grid_handlePlayPause_idle song s :
  isLoading s = false →
  handlePlayPause song s
  = (setIsLoading true s, [CallGetPlayUrl (SongCardProps.id song) AwaitPlay]).
Proof. intros Hl. unfold handlePlayPause. by rewrite Hl. Qed.

Lemma grid_handlePlayPause_requests song s :
  requests (handlePlayPause song s).2
  = if isLoading s then [] else [(SongCardProps.id song, AwaitPlay)].
Proof. unfold handlePlayPause. by destruct (isLoading s). Qed.

Lemma grid_handlePlayPause_isLoading song s :
  isLoading (handlePlayPause song s).1 = true.
Proof. unfold handlePlayPause. by destruct (isLoading s) eqn:E. Qed.

Lemma grid_handlePlayPause_selectedSong song s :
  selectedSong (handlePlayPause song s).1 = selectedSong s.
Proof. unfold handlePlayPause. by destruct (isLoading s). Qed.

Lemma grid_handlePlayPause_writes song s :
  writes (handlePlayPause song s).2 = [].
Proof. unfold handlePlayPause. by destruct (isLoading s). Qed.

Lemma grid_settled_state song r s :
  (handlePlayPause_settled song r s).1 = setIsLoading false s.
Proof. by destruct r. Qed.

Lemma grid_settled_requests song r s :
  requests (handlePlayPause_settled song r s).2 = [].
Proof. by destruct r. Qed.

(** C35.  The dialog issues the same commands after the [await] as the card of
    the same song does: the two surfaces write the same track. *)
Lemma grid_settled_as_card song r s c :
  (handlePlayPause_settled song r s).2
  = (SongCard.handlePlayPause_settled song r c).2.
Proof. by destruct r. Qed.

Lemma grid_handleDownload_pure song r s :
  (handleDownload song s).1 = s ∧ writes (handleDownload song s).2 = [] ∧
  (handleDownload_settled r s).1 = s ∧
  writes (handleDownload_settled r s).2 = [].
Proof. by destruct r. Qed.

Lemma grid_handleDownload_settled_requests r s :
  requests (handleDownload_settled r s).2 = [].
Proof. by destruct r. Qed.

(** ** The markup *)

(** The grid renders the empty state exactly when it has no
    songs; no card and no dialog is rendered then, whatever the state. *)
Theorem grid_render_empty songs s track card_state :
  render songs s track card_state = EmptyState ↔ songs = [].
Proof.
  unfold render. destruct songs; simpl; [done |].
  split; discriminate.
Qed.

(** The cards are rendered in the order of the list, one per song. *)
Lemma grid_render_cards songs s track card_state :
  songs ≠ [] →
  render songs s track card_state =
    Library
      ((λ song, SongCard.render song (card_state (SongCardProps.id song)) track)
         <$> songs)
      ((λ selected, render_dialog selected s track) <$> selectedSong s).
Proof. unfold render. by destruct songs. Qed.

(** The dialog is rendered exactly when a song is selected and the list is
    not empty. *)
Lemma grid_render_dialog songs s track card_state cards d :
  render songs s track card_state = Library cards (Some d) →
  ∃ selected, selectedSong s = Some selected ∧
              d = render_dialog selected s track.
Proof.
  unfold render. case_bool_decide; [done |].
  intros [= _ Hd]. apply fmap_Some in Hd as (sel & ? & ?). eauto.
Qed.

(** The dialog's button is disabled exactly when the handler's guard would
    ignore the click. *)
Lemma grid_disabled_iff_guard selected s track :
  d_buttonDisabled (render_dialog selected s track) = true ↔
  handlePlayPause selected s = (s, []).
Proof. unfold handlePlayPause. simpl. by destruct (isLoading s). Qed.

Lemma section_if_Some text t : section_if text = Some t ↔ text = Some t ∧ t ≠ "".
Proof.
  unfold section_if. destruct text as [[|a u]|]; simpl; naive_solver.
Qed.

End SongGrid.
