(* ===== verification/App.v ===== *)
(** * App: the client as a transition system

    [World] is everything the browser holds for the library page: the
    [songs] prop of the grid, the player store, the state of every mounted
    card (keyed by its React key, the song id), the state of the grid, the
    [getPlayUrl] promises in flight with the closure that awaits each, and
    what has been written to the console and opened in windows.

    [step] is the executable semantics: the handler the event reaches runs
    on its component's state and its commands are interpreted on the world.
    [Step] states the same transitions as rules, one per event and branch,
    with the effect on the world written out; [step_Step] shows that the
    two agree, so that properties of all runs are proved by cases on the
    rules and scenarios are computed with [run]. *)

From stdpp Require Import base option list gmap.
From S2P Require Import Prelude Types Store Effects Card Grid.

(** The component instance whose handler awaits a promise. *)
Inductive Origin :=
| FromCard (id : string)
| FromDialog.

(** A [getPlayUrl] promise in flight: the instance that awaits it, the id
    it was called with, the code that resumes when it settles and the song
    that code closed over. *)
Record Pending := {
  origin : Origin;
  requested : string;
  awaiting : Awaiting;
  captured : SongCardProps.t;
}.

Inductive Event :=
| Click (target : SongCard.Target) (id : string)
| MouseEnter (id : string)
| MouseLeave (id : string)
| DialogPlay
| DialogDownload
| DialogClose
| Settle (n : nat) (r : Settled string).

Record World (St : Type) := mkWorld {
  songs : list SongCardProps.t;
  store : St;
  cards : gmap string SongCard.State;
  grid : SongGrid.State;
  pending : list Pending;
  console : list (string * string);
  windows : list (string * string);
}.
Global Arguments mkWorld {_} _ _ _ _ _ _ _.
Global Arguments songs {_} _.
Global Arguments store {_} _.
Global Arguments cards {_} _.
Global Arguments grid {_} _.
Global Arguments pending {_} _.
Global Arguments console {_} _.
Global Arguments windows {_} _.

#[export] Instance Origin_eq_dec : EqDecision Origin.
Proof. solve_decision. Defined.
#[export] Instance Pending_eq_dec : EqDecision Pending.
Proof. solve_decision. Defined.
#[export] Instance Event_eq_dec : EqDecision Event.
Proof. solve_decision. Defined.

Section world.
Context {St : Type}.
Implicit Types (w : World St).

Definition set_store (st : St) w : World St :=
  mkWorld (songs w) st (cards w) (grid w) (pending w) (console w) (windows w).

Definition set_card (id : string) (s : SongCard.State) w : World St :=
  mkWorld (songs w) (store w) (<[id := s]> (cards w)) (grid w) (pending w)
          (console w) (windows w).

Definition set_grid (g : SongGrid.State) w : World St :=
  mkWorld (songs w) (store w) (cards w) g (pending w) (console w) (windows w).

Definition add_pending (p : Pending) w : World St :=
  mkWorld (songs w) (store w) (cards w) (grid w) (pending w ++ [p])
          (console w) (windows w).

Definition del_pending (n : nat) w : World St :=
  mkWorld (songs w) (store w) (cards w) (grid w) (delete n (pending w))
          (console w) (windows w).

Definition log (label text : string) w : World St :=
  mkWorld (songs w) (store w) (cards w) (grid w) (pending w)
          (console w ++ [(label, text)]) (windows w).

Definition open_window (url target : string) w : World St :=
  mkWorld (songs w) (store w) (cards w) (grid w) (pending w) (console w)
          (windows w ++ [(url, target)]).

(** The loading flag of a component instance; an instance that is not
    mounted has none. *)
Definition loading w (o : Origin) : bool :=
  match o with
  | FromCard id => from_option SongCard.isLoading false (cards w !! id)
  | FromDialog => SongGrid.isLoading (grid w)
  end.

(** The play requests of an instance that are in flight. *)
Definition plays_of (o : Origin) (l : list Pending) : list Pending :=
  filter (λ p, origin p = o ∧ awaiting p = AwaitPlay) l.

End world.

Section client.
Context `{PlayerStoreOps St}.
Implicit Types (w : World St).

(** The first render: every card is mounted in its initial state, nothing
    is selected, nothing is playing. *)
Definition init (songs : list SongCardProps.t) : World St :=
  mkWorld songs emptyStore
          (gset_to_gmap SongCard.initial (list_to_set (ids songs)))
          SongGrid.initial [] [] [].

(** One command of a handler of instance [o] whose closure holds [song]. *)
Definition run_cmd (o : Origin) (song : SongCardProps.t) (c : Cmd) w
  : World St :=
  match c with
  | StopPropagation => w
  | CallGetPlayUrl songId k =>
      add_pending {| origin := o; requested := songId; awaiting := k;
                     captured := song |} w
  | SetTrack t => set_store (setTrack t (store w)) w
  | ConsoleError label text => log label text w
  | WindowOpen url target => open_window url target w
  | Invoke cb => set_grid (SongGrid.run_callback cb (grid w)) w
  end.

Definition run_cmds (o : Origin) (song : SongCardProps.t) (cmds : list Cmd) w
  : World St :=
  foldl (λ w c, run_cmd o song c w) w cmds.

(** A click inside the card mounted under [id]: the grid rendered it with
    the song's props and its [onCardClick] closure. *)
Definition card_click (target : SongCard.Target) (id : string) w
  : option (World St) :=
  song ← find_song id (songs w);
  s ← cards w !! id;
  let '(s', cmds) :=
    SongCard.click target song (Some (SongGrid.onCardClick song)) s in
  Some (run_cmds (FromCard id) song cmds (set_card id s' w)).

Definition card_hover (f : SongCard.State → SongCard.State) (id : string) w
  : option (World St) :=
  _ ← find_song id (songs w);
  s ← cards w !! id;
  Some (set_card id (f s) w).

(** The dialog exists when the list is not empty and a song is selected. *)
Definition dialog_song w : option SongCardProps.t :=
  if bool_decide (songs w = []) then None
  else SongGrid.selectedSong (grid w).

Definition dialog_click
    (h : SongCardProps.t → SongGrid.State → SongGrid.State * list Cmd) w
  : option (World St) :=
  selected ← dialog_song w;
  let '(g', cmds) := h selected (grid w) in
  Some (run_cmds FromDialog selected cmds (set_grid g' w)).

Definition dialog_close w : option (World St) :=
  _ ← dialog_song w;
  Some (set_grid (SongGrid.closeDialog (grid w)) w).

(** The code that resumes when the promise [p] settles with [r]. *)
Definition resume (p : Pending) (r : Settled string) w : option (World St) :=
  match origin p with
  | FromCard id =>
      s ← cards w !! id;
      let '(s', cmds) :=
        match awaiting p with
        | AwaitPlay => SongCard.handlePlayPause_settled (captured p) r s
        | AwaitDownload => SongCard.handleDownload_settled r s
        end in
      Some (run_cmds (FromCard id) (captured p) cmds (set_card id s' w))
  | FromDialog =>
      let '(g', cmds) :=
        match awaiting p with
        | AwaitPlay => SongGrid.handlePlayPause_settled (captured p) r (grid w)
        | AwaitDownload => SongGrid.handleDownload_settled r (grid w)
        end in
      Some (run_cmds FromDialog (captured p) cmds (set_grid g' w))
  end.

(** The [n]-th promise in flight settles. *)
Definition settle (n : nat) (r : Settled string) w : option (World St) :=
  p ← pending w !! n;
  resume p r (del_pending n w).

(** One event.  [None]: the event cannot happen in this world (no such
    card, no dialog, no such promise). *)
Definition step w (e : Event) : option (World St) :=
  match e with
  | Click target id => card_click target id w
  | MouseEnter id => card_hover SongCard.onMouseEnter id w
  | MouseLeave id => card_hover SongCard.onMouseLeave id w
  | DialogPlay => dialog_click SongGrid.handlePlayPause w
  | DialogDownload => dialog_click SongGrid.handleDownload w
  | DialogClose => dialog_close w
  | Settle n r => settle n r w
  end.

(** A sequence of events, first to last. *)
Fixpoint run w (es : list Event) : option (World St) :=
  match es with
  | [] => Some w
  | e :: es' => w' ← step w e; run w' es'
  end.

(** What the page shows. *)
Definition view w : SongGrid.View :=
  SongGrid.render (songs w) (grid w) (getTrack (store w))
                  (λ id, default SongCard.initial (cards w !! id)).

(** The request a handler of [o] sends for [song]. *)
Definition request (o : Origin) (k : Awaiting) (song : SongCardProps.t)
  : Pending :=
  {| origin := o; requested := SongCardProps.id song; awaiting := k;
     captured := song |}.

(** The transitions as rules. *)
Inductive Step : World St → Event → World St → Prop :=
| Step_play_start w id song s :
    find_song id (songs w) = Some song → cards w !! id = Some s →
    SongCard.isLoading s = false →
    Step w (Click SongCard.PlayButton id)
         (add_pending (request (FromCard id) AwaitPlay song)
            (set_card id (SongCard.setIsLoading true s) w))
| Step_play_ignored w id song s :
    find_song id (songs w) = Some song → cards w !! id = Some s →
    SongCard.isLoading s = true →
    Step w (Click SongCard.PlayButton id) w
| Step_download_start w id song s :
    find_song id (songs w) = Some song → cards w !! id = Some s →
    Step w (Click SongCard.DownloadItem id)
         (add_pending (request (FromCard id) AwaitDownload song) w)
| Step_open w id song s :
    find_song id (songs w) = Some song → cards w !! id = Some s →
    Step w (Click SongCard.CardBody id)
         (set_grid (SongGrid.setSelectedSong (Some song) (grid w)) w)
| Step_enter w id song s :
    find_song id (songs w) = Some song → cards w !! id = Some s →
    Step w (MouseEnter id) (set_card id (SongCard.setIsHovered true s) w)
| Step_leave w id song s :
    find_song id (songs w) = Some song → cards w !! id = Some s →
    Step w (MouseLeave id) (set_card id (SongCard.setIsHovered false s) w)
| Step_dialog_play_start w selected :
    dialog_song w = Some selected → SongGrid.isLoading (grid w) = false →
    Step w DialogPlay
         (add_pending (request FromDialog AwaitPlay selected)
            (set_grid (SongGrid.setIsLoading true (grid w)) w))
| Step_dialog_play_ignored w selected :
    dialog_song w = Some selected → SongGrid.isLoading (grid w) = true →
    Step w DialogPlay w
| Step_dialog_download w selected :
    dialog_song w = Some selected →
    Step w DialogDownload
         (add_pending (request FromDialog AwaitDownload selected) w)
| Step_dialog_close w selected :
    dialog_song w = Some selected →
    Step w DialogClose (set_grid (SongGrid.setSelectedSong None (grid w)) w)
| Step_card_play_fulfilled w n p id s url :
    pending w !! n = Some p → origin p = FromCard id →
    awaiting p = AwaitPlay → cards w !! id = Some s →
    Step w (Settle n (Fulfilled url))
         (set_store (setTrack (track_of (captured p) url) (store w))
            (set_card id (SongCard.setIsLoading false s) (del_pending n w)))
| Step_card_play_rejected w n p id s e :
    pending w !! n = Some p → origin p = FromCard id →
    awaiting p = AwaitPlay → cards w !! id = Some s →
    Step w (Settle n (Rejected e))
         (log "Failed to play track:" (error_text e)
            (set_card id (SongCard.setIsLoading false s) (del_pending n w)))
| Step_card_download_fulfilled w n p id s url :
    pending w !! n = Some p → origin p = FromCard id →
    awaiting p = AwaitDownload → cards w !! id = Some s →
    Step w (Settle n (Fulfilled url))
         (open_window url "_blank" (del_pending n w))
| Step_card_download_rejected w n p id s e :
    pending w !! n = Some p → origin p = FromCard id →
    awaiting p = AwaitDownload → cards w !! id = Some s →
    Step w (Settle n (Rejected e))
         (log "Failed to download track:" (error_text e) (del_pending n w))
| Step_dialog_play_fulfilled w n p url :
    pending w !! n = Some p → origin p = FromDialog →
    awaiting p = AwaitPlay →
    Step w (Settle n (Fulfilled url))
         (set_store (setTrack (track_of (captured p) url) (store w))
            (set_grid (SongGrid.setIsLoading false (grid w))
               (del_pending n w)))
| Step_dialog_play_rejected w n p e :
    pending w !! n = Some p → origin p = FromDialog →
    awaiting p = AwaitPlay →
    Step w (Settle n (Rejected e))
         (log "Failed to play track:" (error_text e)
            (set_grid (SongGrid.setIsLoading false (grid w))
               (del_pending n w)))
| Step_dialog_download_fulfilled w n p url :
    pending w !! n = Some p → origin p = FromDialog →
    awaiting p = AwaitDownload →
    Step w (Settle n (Fulfilled url))
         (open_window url "_blank" (del_pending n w))
| Step_dialog_download_rejected w n p e :
    pending w !! n = Some p → origin p = FromDialog →
    awaiting p = AwaitDownload →
    Step w (Settle n (Rejected e))
         (log "Failed to download track:" (error_text e) (del_pending n w)).

(** Some event leads from one world to the other. *)
Definition steps w w' : Prop := ∃ e, step w e = Some w'.

(** The worlds a page rendered with [songs0] can be in. *)
Definition reachable (songs0 : list SongCardProps.t) w : Prop :=
  rtc steps (init songs0) w.

End client.

(** ** Setters *)

Section world_facts.
Context {St : Type}.
Implicit Types (w : World St).

Lemma set_card_same w id s : cards w !! id = Some s → set_card id s w = w.
Proof. intros Hs. destruct w. unfold set_card. simpl in *. by rewrite insert_id. Qed.

Lemma set_grid_same w : set_grid (grid w) w = w.
Proof. by destruct w. Qed.

Lemma loading_FromCard w id s :
  cards w !! id = Some s → loading w (FromCard id) = SongCard.isLoading s.
Proof. simpl. by intros ->. Qed.

Lemma loading_set_card w id s o :
  loading (set_card id s w) o
  = if decide (o = FromCard id) then SongCard.isLoading s else loading w o.
Proof.
  destruct o as [id'|]; simpl; [|done]. case_decide; simplify_eq.
  - by rewrite lookup_insert_eq.
  - rewrite lookup_insert_ne; [done | congruence].
Qed.

Lemma loading_set_grid w g o :
  loading (set_grid g w) o
  = if decide (o = FromDialog) then SongGrid.isLoading g else loading w o.
Proof. by destruct o. Qed.

Lemma loading_set_store w st o : loading (set_store st w) o = loading w o.
Proof. by destruct o. Qed.

Lemma loading_add_pending w p o : loading (add_pending p w) o = loading w o.
Proof. by destruct o. Qed.

Lemma loading_del_pending w n o : loading (del_pending n w) o = loading w o.
Proof. by destruct o. Qed.

Lemma loading_log w l t o : loading (log l t w) o = loading w o.
Proof. by destruct o. Qed.

Lemma loading_open_window w u t o : loading (open_window u t w) o = loading w o.
Proof. by destruct o. Qed.

Lemma plays_of_snoc o (l : list Pending) p :
  length (plays_of o (l ++ [p]))
  = length (plays_of o l)
    + (if decide (origin p = o ∧ awaiting p = AwaitPlay) then 1 else 0).
Proof.
  unfold plays_of. rewrite filter_app_length, filter_cons, filter_nil.
  by case_decide.
Qed.

Lemma plays_of_delete o (l : list Pending) n p :
  l !! n = Some p →
  length (plays_of o l)
  = length (plays_of o (delete n l))
    + (if decide (origin p = o ∧ awaiting p = AwaitPlay) then 1 else 0).
Proof.
  exact (filter_delete_length
           (λ q, origin q = o ∧ awaiting q = AwaitPlay) l n p).
Qed.

End world_facts.

#[export] Hint Rewrite @loading_set_card @loading_set_grid @loading_set_store
  @loading_add_pending @loading_del_pending @loading_log @loading_open_window
  : player_rw.

(** ** The rules and the function agree *)

Section step_facts.
Context `{PlayerStoreOps St}.
Implicit Types (w : World St).

Lemma dialog_song_Some w selected :
  dialog_song w = Some selected ↔
  songs w ≠ [] ∧ SongGrid.selectedSong (grid w) = Some selected.
Proof. unfold dialog_song. case_bool_decide; naive_solver. Qed.

(** Undo the setters that wrote back what was there. *)
Ltac world_simp :=
  repeat first
    [ rewrite set_grid_same
    | erewrite set_card_same by eassumption ].

Lemma step_Step_1 w e w' : step w e = Some w' → Step w e w'.
Proof.
  destruct e as [[] id|id|id| | | |n [url|err]]; simpl;
    unfold card_click, card_hover, dialog_click, dialog_close, settle, resume;
    intros Hs; simplify_option_eq.
  all: repeat match goal with
    | H : context [SongCard.click] |- _ =>
        rewrite ?SongCard.click_PlayButton in H
    | H : context [SongCard.handlePlayPause ?p ?s] |- _ =>
        unfold SongCard.handlePlayPause in H;
        destruct (SongCard.isLoading s) eqn:?
    | H : context [SongGrid.handlePlayPause ?p ?s] |- _ =>
        unfold SongGrid.handlePlayPause in H;
        destruct (SongGrid.isLoading s) eqn:?
    | H : context [match origin ?p with _ => _ end] |- _ =>
        destruct (origin p) eqn:?
    | H : context [match awaiting ?p with _ => _ end] |- _ =>
        destruct (awaiting p) eqn:?
    | _ => progress simplify_option_eq
    end.
  all: cbn; world_simp; solve [econstructor; eauto].
Qed.

Lemma step_Step_2 w e w' : Step w e w' → step w e = Some w'.
Proof.
  intros HS. destruct HS; simpl;
    unfold card_click, card_hover, dialog_click, dialog_close, settle, resume;
    repeat match goal with H : ?x = _ |- context [?x] => rewrite H end; cbn;
    rewrite ?SongCard.click_PlayButton;
    unfold SongCard.handlePlayPause, SongGrid.handlePlayPause;
    repeat match goal with H : ?x = _ |- context [?x] => rewrite H end;
    cbn; world_simp; done.
Qed.

(** The executable semantics and the rules describe the same transitions. *)
Lemma step_Step w e w' : step w e = Some w' ↔ Step w e w'.
Proof. split; [apply step_Step_1 | apply step_Step_2]. Qed.

(** ** Runs *)

Lemma run_cons w e es w1 :
  step w e = Some w1 → run w (e :: es) = run w1 es.
Proof. simpl. by intros ->. Qed.

Lemma run_app w es1 es2 :
  run w (es1 ++ es2) = run w es1 ≫= λ w1, run w1 es2.
Proof.
  revert w; induction es1 as [|e es1 IH]; intros w; simpl; [done |].
  destruct (step w e); simpl; [apply IH | done].
Qed.

Lemma run_snoc w es e :
  run w (es ++ [e]) = run w es ≫= λ w1, step w1 e.
Proof.
  rewrite run_app. destruct (run w es) as [w1|]; simpl; [|done].
  by destruct (step w1 e).
Qed.

Lemma reachable_init songs0 : reachable songs0 (init songs0).
Proof. apply rtc_refl. Qed.

Lemma reachable_step songs0 w e w' :
  reachable songs0 w → step w e = Some w' → reachable songs0 w'.
Proof. intros Hw He. eapply rtc_r; [done | by exists e]. Qed.

Lemma reachable_run songs0 w es w' :
  reachable songs0 w → run w es = Some w' → reachable songs0 w'.
Proof.
  revert w; induction es as [|e es IH]; simpl; intros w Hw Hr.
  - by simplify_eq.
  - destruct (step w e) as [w1|] eqn:He; [|done].
    eapply IH; [by eapply reachable_step | done].
Qed.

(** Every reachable world is the end of a run. *)
Lemma reachable_is_run songs0 w :
  reachable songs0 w → ∃ es, run (init songs0) es = Some w.
Proof.
  unfold reachable. revert w. apply rtc_ind_r; [by exists [] |].
  intros w1 w2 _ [e He] [es Hes]. exists (es ++ [e]).
  by rewrite run_snoc, Hes.
Qed.

End step_facts.
