(* ===== verification/Scenario.v ===== *)
(** * Scenario: a concrete library and the runs of the spec

    Three songs as the page of viewer A receives them (the scenario of the
    spec's section 8: A owns S1 and S2, S3 is another viewer's published
    song), the single slot store, and the runs the theorems of the other
    files are applied to.  Everything here is closed and computes. *)

From stdpp Require Import base option list gmap.
From S2P Require Import Prelude Types Store Effects Card Grid App.

Definition demo_song (id title : string) (at_ : Z) (own : bool)
  : SongCardProps.t :=
  {| SongCardProps.id := id;
     SongCardProps.title := Some title;
     SongCardProps.createdAt := at_;
     SongCardProps.instrumental := false;
     SongCardProps.prompt := None;
     SongCardProps.lyrics := None;
     SongCardProps.describedLyrics := None;
     SongCardProps.fullDescribedSong := None;
     SongCardProps.thumbnailUrl := None;
     SongCardProps.playUrl := None;
     SongCardProps.status := Some "processed";
     SongCardProps.createdByUserName := Some (if own then "A" else "B");
     SongCardProps.published := negb (String.eqb id "S1");
     SongCardProps.isOwnSong := Some own |}.

Definition S1 : SongCardProps.t := demo_song "S1" "first" 10 true.
Definition S2 : SongCardProps.t := demo_song "S2" "second" 20 true.
Definition S3 : SongCardProps.t := demo_song "S3" "third" 30 false.

Definition demo_songs : list SongCardProps.t := [S3; S2; S1].

(** The first render. *)
Definition demo_init : World SlotStore := init demo_songs.

(** The world a run from the first render ends in ([demo_init] itself when
    an event of the run cannot happen). *)
Definition demo_run (es : list Event) : World SlotStore :=
  default demo_init (run demo_init es).

(** Play is clicked on the card of S1 and then on the card of S2. *)
Definition two_clicks : list Event :=
  [Click SongCard.PlayButton "S1"; Click SongCard.PlayButton "S2"].

(** The request of S2 is fulfilled first, the request of S1 second. *)
Definition later_request_first : list Event :=
  two_clicks ++ [Settle 1 (Fulfilled "https://cdn/S2");
                 Settle 0 (Fulfilled "https://cdn/S1")].

(** The request of S1 is rejected, the request of S2 stays in flight. *)
Definition first_rejected : list Event :=
  two_clicks ++ [Settle 0 (Rejected (ErrorObject "signer unavailable"))].

(** The dialog of S3 is opened and play is clicked in it and on the card of
    S3: two play requests for one song. *)
Definition card_and_dialog : list Event :=
  [Click SongCard.CardBody "S3"; DialogPlay; Click SongCard.PlayButton "S3"].

(** ** What the runs compute *)

Lemma demo_run_reachable es : reachable demo_songs (demo_run es).
Proof.
  unfold demo_run. destruct (run demo_init es) as [w|] eqn:E; simpl.
  - eapply reachable_run; [apply reachable_init | exact E].
  - apply reachable_init.
Qed.

Example demo_init_view :
  view demo_init
  = SongGrid.Library
      ((λ p, SongCard.render p SongCard.initial None) <$> demo_songs) None.
Proof. vm_compute. reflexivity. Qed.

Example two_clicks_pending :
  pending (demo_run two_clicks)
  = [request (FromCard "S1") AwaitPlay S1; request (FromCard "S2") AwaitPlay S2].
Proof. vm_compute. reflexivity. Qed.

Example two_clicks_loading :
  (λ o, loading (demo_run two_clicks) o)
    <$> [FromCard "S1"; FromCard "S2"; FromCard "S3"; FromDialog]
  = [true; true; false; false].
Proof. vm_compute. reflexivity. Qed.

Example later_request_first_track :
  getTrack (store (demo_run later_request_first))
  = Some (track_of S1 "https://cdn/S1").
Proof. vm_compute. reflexivity. Qed.

Example first_rejected_world :
  let w := demo_run first_rejected in
  getTrack (store w) = None ∧
  console w = [("Failed to play track:", "signer unavailable")] ∧
  loading w (FromCard "S1") = false ∧ loading w (FromCard "S2") = true.
Proof. vm_compute. done. Qed.

Example card_and_dialog_pending :
  requested <$> pending (demo_run card_and_dialog) = ["S3"; "S3"].
Proof. vm_compute. reflexivity. Qed.
