(* ===== verification/Invariants.v ===== *)
(** * Invariants: what holds in every world a session can reach

    [Always songs0 I] says that [I] holds in every world reachable from the
    first render of [songs0].  [wf] collects the structural facts (the list
    never changes, exactly the songs of the list have a mounted card, the
    selected song and the song of every closure in flight are songs of the
    list); [inv_loading] ties each loading flag to the play requests in
    flight; [inv_track] says where the current track came from. *)

From stdpp Require Import base option list gmap.
From S2P Require Import Prelude Types Store Effects Card Grid App Scenario.

(** What a closure in flight holds: a song of the list, requested under its
    own id, and awaited by the card of that song when a card awaits it. *)
Definition pending_ok (songs0 : list SongCardProps.t) (p : Pending) : Prop :=
  captured p ∈ songs0 ∧
  requested p = SongCardProps.id (captured p) ∧
  match origin p with
  | FromCard id => id = SongCardProps.id (captured p)
  | FromDialog => True
  end.

Section invariants.
Context `{PlayerStoreOps St}.
Implicit Types (w : World St) (I J : World St → Prop).

(** [I] holds in every reachable world. *)
Definition Always (songs0 : list SongCardProps.t) I : Prop :=
  ∀ w, reachable songs0 w → I w.

(** Every rule keeps [I], in worlds where [J] holds. *)
Definition preserved_in J I : Prop :=
  ∀ w e w', J w → I w → Step w e w' → I w'.

Record wf (songs0 : list SongCardProps.t) w : Prop := {
  wf_songs : songs w = songs0;
  wf_mounted : dom (cards w) = list_to_set (ids songs0);
  wf_selected song :
    SongGrid.selectedSong (grid w) = Some song → song ∈ songs0;
  wf_pending : Forall (pending_ok songs0) (pending w);
}.

(** Each loading flag counts the play requests of its instance that are in
    flight: one when set, none when clear. *)
Definition inv_loading w : Prop :=
  ∀ o, length (plays_of o (pending w)) = if loading w o then 1 else 0.

(** The current track was built by a play handler from a song of the
    list. *)
Definition inv_track (songs0 : list SongCardProps.t) w : Prop :=
  ∀ t, getTrack (store w) = Some t →
       ∃ song url, song ∈ songs0 ∧ t = track_of song url.

(** The tracks an event writes to the store, read off the world it happens
    in. *)
Definition written w (e : Event) : list Track.t :=
  match e with
  | Settle n (Fulfilled url) =>
      match pending w !! n with
      | Some p =>
          match awaiting p with
          | AwaitPlay => [track_of (captured p) url]
          | AwaitDownload => []
          end
      | None => []
      end
  | _ => []
  end.

(** The tracks a run writes, first to last. *)
Fixpoint written_run w (es : list Event) : list Track.t :=
  match es with
  | [] => []
  | e :: es' =>
      written w e ++ from_option (λ w', written_run w' es') [] (step w e)
  end.

(** ** The induction principle *)

Lemma Always_intro songs0 I J :
  Always songs0 J → I (init songs0) → preserved_in J I → Always songs0 I.
Proof.
  intros HJ Hi Hp. unfold Always, reachable. apply rtc_ind_r; [done |].
  intros w1 w2 Hr [e He] IH.
  eapply Hp; [by apply HJ | done | by apply step_Step].
Qed.

Lemma Always_True songs0 : Always songs0 (λ _, True).
Proof. done. Qed.

Lemma Always_and songs0 I J :
  Always songs0 I → Always songs0 J → Always songs0 (λ w, I w ∧ J w).
Proof. intros HI HJ w Hw. split; [by apply HI | by apply HJ]. Qed.

(** ** What each rule leaves alone *)

Lemma Step_songs w e w' : Step w e w' → songs w' = songs w.
Proof. by destruct 1. Qed.

Lemma Step_dom_cards w e w' : Step w e w' → dom (cards w') = dom (cards w).
Proof. destruct 1; simpl; try done; apply dom_insert_lookup_L; eauto. Qed.

Lemma Step_selected w e w' song :
  Step w e w' → SongGrid.selectedSong (grid w') = Some song →
  SongGrid.selectedSong (grid w) = Some song ∨ song ∈ songs w.
Proof.
  destruct 1; simpl; intros Hs; simplify_eq; eauto.
  right. by eapply find_song_Some.
Qed.

Lemma dialog_song_selected w selected :
  dialog_song w = Some selected →
  SongGrid.selectedSong (grid w) = Some selected.
Proof. by intros [_ ?]%dialog_song_Some. Qed.

(** ** Well-formedness *)

Lemma pending_ok_request songs0 o k song :
  song ∈ songs0 → o = FromCard (SongCardProps.id song) ∨ o = FromDialog →
  pending_ok songs0 (request o k song).
Proof. intros ? [-> | ->]; by repeat split. Qed.

Lemma Step_pending songs0 w e w' :
  wf songs0 w → Step w e w' → Forall (pending_ok songs0) (pending w').
Proof.
  intros [Hsongs _ Hsel Hp] HS.
  destruct HS; simpl; try done; try (by apply Forall_delete);
    apply Forall_app; (split; [done |]); apply Forall_singleton;
    apply pending_ok_request; rewrite <- ?Hsongs;
    try match goal with
      | Hf : find_song _ _ = Some _ |- _ =>
          apply find_song_Some in Hf as [? <-]
      | Hd : dialog_song _ = Some _ |- _ =>
          apply dialog_song_selected, Hsel in Hd; rewrite Hsongs
      end; eauto.
Qed.

Lemma wf_init songs0 : wf songs0 (init songs0).
Proof.
  split; simpl; [done | | done | done].
  by rewrite dom_gset_to_gmap.
Qed.

Lemma wf_preserved songs0 : preserved_in (λ _, True) (wf songs0).
Proof.
  intros w e w' _ Hwf HS. pose proof Hwf as [Hsongs Hm Hsel Hp]. split.
  - by rewrite (Step_songs w e w').
  - by rewrite (Step_dom_cards w e w').
  - intros song [?| ?]%(Step_selected w e w'); [eauto | congruence | done].
  - by eapply Step_pending.
Qed.

Lemma wf_always songs0 : Always songs0 (wf songs0).
Proof.
  eapply Always_intro; [apply Always_True | apply wf_init | apply wf_preserved].
Qed.

(** A mounted card is the card of a song of the list, and conversely. *)
Lemma wf_card_mounted songs0 w id :
  wf songs0 w → is_Some (cards w !! id) ↔ id ∈ ids songs0.
Proof.
  intros [_ Hm _ _]. by rewrite <- elem_of_dom, Hm, elem_of_list_to_set.
Qed.

Lemma wf_pending_lookup songs0 w n p :
  wf songs0 w → pending w !! n = Some p → pending_ok songs0 p.
Proof.
  intros [_ _ _ Hp] Hn. eapply Forall_lookup_1 in Hp; eauto.
Qed.

(** ** Loading flags and requests in flight *)

Lemma inv_loading_init songs0 : inv_loading (init songs0).
Proof.
  intros [id|]; simpl; [|done].
  rewrite lookup_gset_to_gmap. by case_guard.
Qed.

Lemma inv_loading_preserved songs0 : preserved_in (wf songs0) inv_loading.
Proof.
  intros w e w' _ IH HS o. specialize (IH o).
  destruct HS; simpl pending; autorewrite with player_rw;
    rewrite ?plays_of_snoc; try done;
    try (erewrite (plays_of_delete o (pending w)) in IH by eassumption);
    cbn [request origin awaiting] in *;
    repeat match goal with
      | Ho : origin _ = _ |- _ => rewrite Ho in *
      | Ha : awaiting _ = _ |- _ => rewrite Ha in *
      end;
    repeat case_decide; destruct_and?; simplify_eq/=;
    repeat match goal with
      | Hc : cards ?w !! ?id = Some ?s, IH : context [cards ?w !! ?id] |- _ =>
          rewrite Hc in IH; simpl in IH
      | Hl : _ = false, IH : context [if _ then 1 else 0] |- _ =>
          rewrite Hl in IH
      end;
    try (exfalso; naive_solver); repeat case_match; lia.
Qed.

Lemma inv_loading_always songs0 : Always songs0 inv_loading.
Proof.
  eapply Always_intro;
    [apply wf_always | apply inv_loading_init | apply inv_loading_preserved].
Qed.

(** C2.  In every reachable world a loading flag is set exactly when one
    play request of its component instance is in flight, and no instance
    ever has two. *)
Theorem loading_flag_counts songs0 w o :
  reachable songs0 w →
  length (plays_of o (pending w)) = if loading w o then 1 else 0.
Proof. intros Hw. by apply (inv_loading_always songs0). Qed.

(** A set flag has its request: the promise the instance waits for is in
    flight. *)
Lemma loading_has_request songs0 w o :
  reachable songs0 w → loading w o = true →
  ∃ n p, pending w !! n = Some p ∧ origin p = o ∧ awaiting p = AwaitPlay.
Proof.
  intros Hw Hl. pose proof (inv_loading_always songs0 w Hw o) as Hc.
  rewrite Hl in Hc. destruct (plays_of o (pending w)) as [|p l] eqn:E; [done |].
  assert (p ∈ plays_of o (pending w)) as Hp by (rewrite E; left).
  apply list_elem_of_filter in Hp as [[? ?] [n ?]%list_elem_of_lookup].
  eauto.
Qed.

(** ** Where the current track comes from *)

Lemma inv_track_init songs0 : inv_track songs0 (init songs0).
Proof. intros t. simpl. by rewrite getTrack_emptyStore. Qed.

Lemma inv_track_preserved songs0 :
  preserved_in (wf songs0) (inv_track songs0).
Proof.
  intros w e w' Hwf IH HS t.
  destruct HS; simpl; try apply IH; rewrite getTrack_setTrack;
    intros [= <-]; eexists _, _; (split; [|done]);
    by eapply wf_pending_lookup.
Qed.

Lemma inv_track_always songs0 : Always songs0 (inv_track songs0).
Proof.
  eapply Always_intro;
    [apply wf_always | apply inv_track_init | apply inv_track_preserved].
Qed.

(** C12.  In every reachable world the current track, when there is one,
    was built from a song of the list and a url: its id is the id of a
    card on the page and its url is present. *)
Theorem track_from_song songs0 w t :
  reachable songs0 w → getTrack (store w) = Some t →
  ∃ song url, song ∈ songs0 ∧ t = track_of song url.
Proof. intros Hw. by apply (inv_track_always songs0). Qed.

(** ** What is written to the store *)

Lemma Step_store w e w' :
  Step w e w' → store w' = setTracks (written w e) (store w).
Proof.
  destruct 1; simpl; try done;
    repeat match goal with Hx : ?x = _ |- context [?x] => rewrite Hx end;
    done.
Qed.

Lemma written_run_cons w e es w1 :
  step w e = Some w1 →
  written_run w (e :: es) = written w e ++ written_run w1 es.
Proof. simpl. by intros ->. Qed.

Lemma run_store w es w' :
  run w es = Some w' → store w' = setTracks (written_run w es) (store w).
Proof.
  revert w; induction es as [|e es IH]; intros w Hr; simpl in Hr.
  - by simplify_eq.
  - destruct (step w e) as [w1|] eqn:He; [|done].
    rewrite (written_run_cons _ _ _ _ He), (IH _ Hr).
    apply step_Step, Step_store in He. rewrite He.
    unfold setTracks. by rewrite foldl_app.
Qed.

(** C1.  Last completion wins, over every run: the store reads as the
    track of the last play request that was fulfilled along the run,
    whatever the order in which the requests were made, and as before the
    run when none was fulfilled. *)
Theorem last_fulfilled_play_wins w es w' :
  run w es = Some w' →
  getTrack (store w')
  = from_option Some (getTrack (store w)) (last (written_run w es)).
Proof. intros Hr. rewrite (run_store _ _ _ Hr). apply getTrack_setTracks. Qed.

End invariants.

Lemma loading_flag_counts_witness :
  length (plays_of (FromCard "S1") (pending (demo_run two_clicks))) = 1.
Proof.
  etransitivity;
    [apply (loading_flag_counts demo_songs), demo_run_reachable |].
  vm_compute. reflexivity.
Defined.

Lemma track_from_song_witness :
  ∃ song url, song ∈ demo_songs ∧ track_of S1 "https://cdn/S1" = track_of song url.
Proof.
  apply (track_from_song demo_songs (demo_run later_request_first)).
  - apply demo_run_reachable.
  - vm_compute. reflexivity.
Defined.

Lemma last_fulfilled_play_wins_witness :
  getTrack (store (demo_run later_request_first))
  = Some (track_of S1 "https://cdn/S1").
Proof.
  etransitivity;
    [apply (last_fulfilled_play_wins demo_init later_request_first) |];
    vm_compute; reflexivity.
Defined.
