(* ===== verification/Playback.v ===== *)
(** * Playback: what an event does to the page

    The behaviour of the single events at the level of the whole client:
    which events write the store, what a rejected promise leaves behind,
    which cards show as playing afterwards, and what an empty list
    allows. *)

From stdpp Require Import base option list gmap.
From S2P Require Import Prelude Types Store Effects Card Grid App Scenario.
From S2P Require Import Invariants.

(** The cards of a page that show the pause sign. *)
Definition playing_cards (v : SongGrid.View) : list SongCard.View :=
  match v with
  | SongGrid.EmptyState => []
  | SongGrid.Library cards _ =>
      filter (λ c, SongCard.buttonIcon c = SongCard.Pause) cards
  end.

(** The songs of a world whose card is playing, read off the store. *)
Definition playing_songs {St} `{PlayerStoreOps St} (w : World St)
  : list SongCardProps.t :=
  filter (λ p, SongCard.isPlaying (getTrack (store w)) (SongCardProps.id p)
               = true)
         (songs w).

Section playback.
Context `{PlayerStoreOps St}.
Implicit Types (w : World St).

(** ** Which events write the store *)

Lemma written_nil_store w e w' :
  step w e = Some w' → written w e = [] → store w' = store w.
Proof. intros HS%step_Step%Step_store Hw. by rewrite HS, Hw. Qed.

(** C27.  Only the fulfilment of a promise writes the store: clicks of any
    kind, hovering, opening and closing the dialog and every rejection
    leave it as it was. *)
Theorem store_kept_unless_fulfilled w e w' :
  step w e = Some w' → (∀ n url, e ≠ Settle n (Fulfilled url)) →
  store w' = store w.
Proof.
  intros HS Hne. apply (written_nil_store w e w' HS).
  destruct e as [| | | | | |n [url|err]]; try done. by destruct (Hne n url).
Qed.

(** C28.  A download never writes the store and never changes the state of
    a component, neither when it is requested nor when its promise settles,
    fulfilled or rejected. *)
Theorem download_settle_keeps_state w n p r w' :
  pending w !! n = Some p → awaiting p = AwaitDownload →
  step w (Settle n r) = Some w' →
  store w' = store w ∧ cards w' = cards w ∧ grid w' = grid w ∧
  pending w' = delete n (pending w).
Proof.
  intros Hn Hk HS%step_Step.
  inversion HS; subst; simplify_eq; try congruence; by repeat split.
Qed.

(** C10.  A rejected promise leaves the store untouched, is removed from
    the promises in flight and adds one line to the console that carries
    the text of the error. *)
Theorem rejected_keeps_store w n e w' :
  step w (Settle n (Rejected e)) = Some w' →
  store w' = store w ∧ pending w' = delete n (pending w) ∧
  ∃ label, console w' = console w ++ [(label, error_text e)].
Proof.
  intros HS%step_Step. inversion HS; subst; simpl; eauto.
Qed.

(** A rejected play request clears the loading flag of the instance that
    made it. *)
Lemma rejected_play_clears_flag w n p e w' :
  pending w !! n = Some p → awaiting p = AwaitPlay →
  step w (Settle n (Rejected e)) = Some w' → loading w' (origin p) = false.
Proof.
  intros Hn Hk HS%step_Step.
  inversion HS; subst; simplify_eq; try congruence;
    repeat match goal with Ho : origin _ = _ |- _ => rewrite Ho end;
    autorewrite with player_rw; by rewrite decide_True.
Qed.

(** C13.  A fulfilled play request makes its song the current track with
    the url it was fulfilled with, removes the promise and clears the
    loading flag of the instance that made it. *)
Theorem fulfilled_play_sets_track w n p url w' :
  pending w !! n = Some p → awaiting p = AwaitPlay →
  step w (Settle n (Fulfilled url)) = Some w' →
  getTrack (store w') = Some (track_of (captured p) url) ∧
  pending w' = delete n (pending w) ∧ loading w' (origin p) = false.
Proof.
  intros Hn Hk HS%step_Step.
  inversion HS; subst; simplify_eq; try congruence; simpl store;
    rewrite getTrack_setTrack; (split; [done |]); (split; [done |]);
    repeat match goal with Ho : origin _ = _ |- _ => rewrite Ho end;
    autorewrite with player_rw; by rewrite decide_True.
Qed.

(** The track in the store after a play request was fulfilled. *)
Lemma fulfilled_play_track w n p url w' :
  pending w !! n = Some p → awaiting p = AwaitPlay →
  step w (Settle n (Fulfilled url)) = Some w' →
  getTrack (store w') = Some (track_of (captured p) url).
Proof.
  intros Hn Hk HS%step_Step%Step_store. rewrite HS. simpl.
  by rewrite Hn, Hk, getTrack_setTracks.
Qed.

(** ** Which cards play *)

Lemma playing_songs_le_1 w :
  NoDup (ids (songs w)) → length (playing_songs w) ≤ 1.
Proof.
  intros Hnd. apply (filter_length_le_1 _ SongCardProps.id); [done |].
  intros x y _ _. apply SongCard.isPlaying_unique.
Qed.

Lemma playing_cards_view w :
  length (playing_cards (view w)) ≤ length (playing_songs w).
Proof.
  unfold view, SongGrid.render, playing_songs.
  case_bool_decide; simpl; [lia |].
  apply (SongCard.card_Pause_count (songs w)
           (λ id, default SongCard.initial (cards w !! id))).
Qed.

(** C6.  At most one card of the page shows the pause sign, when the ids
    of the list are distinct. *)
Theorem at_most_one_playing w :
  NoDup (ids (songs w)) → length (playing_cards (view w)) ≤ 1.
Proof.
  intros Hnd. etransitivity; [apply playing_cards_view |].
  by apply playing_songs_le_1.
Qed.

(** C24.  The moment a play request for a song is fulfilled with a
    non-empty url, the card of that song is the one that plays and every
    card with another id does not, whatever played before. *)
Theorem fulfilled_play_demotes_others w n p url w' id :
  pending w !! n = Some p → awaiting p = AwaitPlay →
  step w (Settle n (Fulfilled url)) = Some w' →
  SongCard.isPlaying (getTrack (store w')) id
  = bool_decide (SongCardProps.id (captured p) = id) && truthy (Some url).
Proof.
  intros Hn Hk HS.
  rewrite (fulfilled_play_track w n p url w' Hn Hk HS).
  apply SongCard.isPlaying_track_of.
Qed.

(** ** The empty list *)

Lemma init_nil_step e : step (init (St:=St) []) e = None.
Proof. by destruct e as [[] ?|?|?| | | |[|?] ?]. Qed.

(** C29.  With an empty list the page shows the empty state, no event can
    happen, and the first render is the only reachable world. *)
Theorem empty_library_inert w :
  reachable [] w →
  w = init [] ∧ view w = SongGrid.EmptyState ∧ ∀ e, step w e = None.
Proof.
  intros Hw. assert (w = init []) as ->; [|by auto using init_nil_step].
  revert w Hw. apply rtc_ind_r; [done |].
  intros w1 w2 _ [e He] ->. by rewrite init_nil_step in He.
Qed.

(** ** The rules are deterministic *)


(** ** The guard of the dialog *)

(** C26.  The dialog's guard is one flag of the grid: while a play request of the
    dialog is in flight a play click in the dialog is ignored, whichever
    song the dialog shows by then. *)
Theorem dialog_guard_shared w selected :
  dialog_song w = Some selected → loading w FromDialog = true →
  step w DialogPlay = Some w.
Proof. intros Hd Hl. apply step_Step. by eapply Step_dialog_play_ignored. Qed.

(** C25.  The guards of a card and of the dialog are separate: play on the card
    of a song and then in the dialog of the same song puts two requests
    for that song in flight. *)
Theorem card_and_dialog_both_resolve w song s :
  dialog_song w = Some song →
  find_song (SongCardProps.id song) (songs w) = Some song →
  cards w !! SongCardProps.id song = Some s →
  SongCard.isLoading s = false → SongGrid.isLoading (grid w) = false →
  ∃ w', run w [Click SongCard.PlayButton (SongCardProps.id song); DialogPlay]
        = Some w' ∧
        pending w'
        = pending w ++ [request (FromCard (SongCardProps.id song)) AwaitPlay song;
                        request FromDialog AwaitPlay song].
Proof.
  intros Hd Hf Hc Hs Hg. eexists. split.
  - erewrite run_cons; [|by apply step_Step; eapply Step_play_start].
    erewrite run_cons; [done |].
    apply step_Step. by eapply Step_dialog_play_start.
  - simpl. by rewrite <- app_assoc.
Qed.

End playback.

Lemma store_kept_unless_fulfilled_witness :
  store (demo_run first_rejected) = store (demo_run two_clicks).
Proof.
  apply (store_kept_unless_fulfilled _
           (Settle 0 (Rejected (ErrorObject "signer unavailable"))));
    [vm_compute; reflexivity | done].
Defined.

Lemma download_settle_keeps_state_witness :
  let w := demo_run [Click SongCard.DownloadItem "S2"] in
  let w' := demo_run [Click SongCard.DownloadItem "S2";
                      Settle 0 (Fulfilled "https://cdn/S2")] in
  store w' = store w ∧ cards w' = cards w ∧ grid w' = grid w ∧
  pending w' = delete 0 (pending w).
Proof.
  intros w w'.
  apply (download_settle_keeps_state w 0
           (request (FromCard "S2") AwaitDownload S2)
           (Fulfilled "https://cdn/S2") w'); vm_compute; reflexivity.
Defined.

Lemma rejected_keeps_store_witness :
  let w := demo_run two_clicks in
  let w' := demo_run first_rejected in
  store w' = store w ∧ pending w' = delete 0 (pending w) ∧
  ∃ label, console w' = console w ++ [(label, "signer unavailable")].
Proof.
  intros w w'.
  apply (rejected_keeps_store w 0 (ErrorObject "signer unavailable") w').
  vm_compute. reflexivity.
Defined.

Lemma fulfilled_play_sets_track_witness :
  let w := demo_run two_clicks in
  let w' := demo_run (two_clicks ++ [Settle 1 (Fulfilled "https://cdn/S2")]) in
  getTrack (store w') = Some (track_of S2 "https://cdn/S2") ∧
  pending w' = delete 1 (pending w) ∧ loading w' (FromCard "S2") = false.
Proof.
  intros w w'.
  apply (fulfilled_play_sets_track w 1 (request (FromCard "S2") AwaitPlay S2)
           "https://cdn/S2" w'); vm_compute; reflexivity.
Defined.

Lemma at_most_one_playing_witness :
  length (playing_cards (view (demo_run later_request_first))) ≤ 1.
Proof.
  apply (at_most_one_playing (demo_run later_request_first)).
  vm_compute. repeat constructor; set_solver.
Defined.

Lemma fulfilled_play_demotes_others_witness :
  let w := demo_run (two_clicks ++ [Settle 1 (Fulfilled "https://cdn/S2")]) in
  let w' := demo_run later_request_first in
  SongCard.isPlaying (getTrack (store w')) "S2"
  = bool_decide (SongCardProps.id S1 = "S2") && truthy (Some "https://cdn/S1").
Proof.
  intros w w'.
  apply (fulfilled_play_demotes_others w 0
           (request (FromCard "S1") AwaitPlay S1) "https://cdn/S1" w' "S2");
    vm_compute; reflexivity.
Defined.

Lemma empty_library_inert_witness :
  let w := init (St:=SlotStore) [] in
  w = init [] ∧ view w = SongGrid.EmptyState ∧ ∀ e, step w e = None.
Proof. intros w. apply (empty_library_inert w), reachable_init. Defined.


Lemma dialog_guard_shared_witness :
  let w := demo_run [Click SongCard.CardBody "S3"; DialogPlay; DialogClose;
                     Click SongCard.CardBody "S2"] in
  step w DialogPlay = Some w.
Proof.
  intros w. apply (dialog_guard_shared w S2); vm_compute; reflexivity.
Defined.

Lemma card_and_dialog_both_resolve_witness :
  let w := demo_run [Click SongCard.CardBody "S3"] in
  ∃ w', run w [Click SongCard.PlayButton "S3"; DialogPlay] = Some w' ∧
        pending w'
        = pending w ++ [request (FromCard "S3") AwaitPlay S3;
                        request FromDialog AwaitPlay S3].
Proof.
  intros w.
  apply (card_and_dialog_both_resolve w S3 SongCard.initial);
    vm_compute; reflexivity.
Defined.
