(* ===== verification/Liveness.v ===== *)
(** * Liveness: promises settle, and what happens when they do not

    Every promise in flight can settle at any time, with either outcome;
    settling removes it and creates no other, so settling them all
    terminates in a world with nothing in flight and every loading flag
    clear.  Nothing else clears a flag: while no promise settles, a loading
    instance stays loading (the source sets no timeout). *)

From stdpp Require Import base option list gmap.
From S2P Require Import Prelude Types Store Effects Card Grid App Scenario.
From S2P Require Import Invariants.

(** The events that settle the promises in flight oldest first, with the
    given outcomes. *)
Definition settle_all (rs : list (Settled string)) : list Event :=
  Settle 0 <$> rs.

(** An event that settles no promise. *)
Definition is_user_event (e : Event) : Prop :=
  match e with Settle _ _ => False | _ => True end.

#[export] Instance is_user_event_dec e : Decision (is_user_event e).
Proof. destruct e; simpl; apply _. Defined.

Section liveness.
Context `{PlayerStoreOps St}.
Implicit Types (w : World St).

(** ** Progress *)

Lemma resume_enabled songs0 w p r :
  wf songs0 w → pending_ok songs0 p → is_Some (resume p r w).
Proof.
  intros Hwf (Hc & _ & Ho). unfold resume.
  destruct (origin p) as [id|]; [|by destruct (awaiting p), r].
  assert (is_Some (cards w !! id)) as [s Hs].
  { eapply wf_card_mounted; [done |]. subst id. by apply list_elem_of_fmap_2. }
  rewrite Hs. by destruct (awaiting p), r.
Qed.

Lemma wf_del_pending songs0 w n : wf songs0 w → wf songs0 (del_pending n w).
Proof. intros [? ? ? ?]. split; simpl; auto using Forall_delete. Qed.

(** In a well-formed world the code that awaits a promise in flight is
    there to resume. *)
Lemma settle_Some songs0 w n p r :
  wf songs0 w → pending w !! n = Some p → is_Some (settle n r w).
Proof.
  intros Hwf Hp. unfold settle. rewrite Hp. simpl.
  eapply resume_enabled; [by apply wf_del_pending | by eapply wf_pending_lookup].
Qed.


Lemma settle_pending w n r w' :
  step w (Settle n r) = Some w' → pending w' = delete n (pending w).
Proof. intros HS%step_Step. by inversion HS. Qed.

(** ** Settling everything *)

Lemma quiet_not_loading songs0 w o :
  reachable songs0 w → pending w = [] → loading w o = false.
Proof.
  intros Hw Hp. pose proof (inv_loading_always songs0 w Hw o) as Hc.
  rewrite Hp in Hc. by destruct (loading w o).
Qed.

(** C11.  From a reachable world, settling the promises in flight one
    after the other, with any outcomes, succeeds at every step and ends,
    after as many steps as there were promises, in a world with nothing in
    flight and no loading flag set. *)
Theorem settle_all_quiesces songs0 w rs :
  reachable songs0 w → length rs = length (pending w) →
  ∃ w', run w (settle_all rs) = Some w' ∧ pending w' = [] ∧
        ∀ o, loading w' o = false.
Proof.
  revert w; induction rs as [|r rs IH]; intros w Hw Hlen; simpl in *.
  - exists w. apply eq_sym, nil_length_inv in Hlen.
    eauto using quiet_not_loading.
  - destruct (lookup_lt_is_Some_2 (pending w) 0) as [p Hp]; [lia |].
    destruct (settle_Some songs0 w 0 p r (wf_always _ _ Hw) Hp) as [w1 H1].
    change (step w (Settle 0 r) = Some w1) in H1.
    destruct (IH w1) as (w' & ? & ? & ?).
    + by eapply reachable_step.
    + rewrite (settle_pending _ _ _ _ H1), length_delete; [lia |].
      by apply lookup_lt_is_Some_2; lia.
    + exists w'. unfold settle_all. csimpl. simpl in H1. by rewrite H1.
Qed.

(** ** Promises that do not settle *)

Lemma user_event_keeps_loading w e w' o :
  is_user_event e → step w e = Some w' →
  loading w o = true → loading w' o = true.
Proof.
  intros He HS%step_Step Hl.
  destruct HS; try done; autorewrite with player_rw;
    case_decide; subst; simpl in *; simplify_option_eq; done.
Qed.

Lemma user_event_keeps_pending w e w' :
  is_user_event e → step w e = Some w' → pending w `prefix_of` pending w'.
Proof.
  intros He HS%step_Step.
  destruct HS; try done; simpl; by apply prefix_app_r.
Qed.

(** C22.  While no promise settles, a loading instance stays loading and
    its promise stays in flight: no user event clears the flag, and there
    is no timeout. *)
Theorem unsettled_stays_loading w es w' o :
  Forall is_user_event es → run w es = Some w' →
  loading w o = true →
  loading w' o = true ∧ pending w `prefix_of` pending w'.
Proof.
  revert w; induction es as [|e es IH]; intros w Hes Hr Hl; simpl in Hr.
  - by simplify_eq.
  - apply Forall_cons in Hes as [He Hes].
    destruct (step w e) as [w1|] eqn:E; [|done].
    destruct (IH w1 Hes Hr) as [? ?];
      [by eapply user_event_keeps_loading |].
    split; [done |]. etransitivity; [|done].
    by eapply user_event_keeps_pending.
Qed.

End liveness.


Lemma settle_all_quiesces_witness :
  ∃ w', run (demo_run two_clicks)
            (settle_all [Fulfilled "https://cdn/S1"; Rejected (Thrown "gone")])
        = Some w' ∧
        pending w' = [] ∧ ∀ o, loading w' o = false.
Proof.
  apply (settle_all_quiesces demo_songs); [apply demo_run_reachable |].
  vm_compute. reflexivity.
Defined.

Lemma unsettled_stays_loading_witness :
  let w := demo_run [Click SongCard.PlayButton "S1"] in
  let w' := demo_run (two_clicks ++ [Click SongCard.CardBody "S1"; DialogClose]) in
  loading w' (FromCard "S1") = true ∧ pending w `prefix_of` pending w'.
Proof.
  intros w w'.
  apply (unsettled_stays_loading w
           [Click SongCard.PlayButton "S2"; Click SongCard.CardBody "S1";
            DialogClose]);
    [repeat constructor | vm_compute; reflexivity..].
Defined.
