(* ===== verification/Refinement.v ===== *)
(** * Refinement: the client implements the state machine of the spec

    The spec describes playback as one slot and, for every component
    instance that can ask for a track, a state among idle, resolving and
    active.  [AState] is that description: the current track and the set of
    instances that are resolving.  [AStep] gives its transitions: a play
    intent (guarded: ignored while resolving), a resolution that succeeds
    (the slot is overwritten, whoever wrote it before), a resolution that
    fails (the slot is kept), and steps that change neither.

    Abstract states are compared by [≡]: the same track and the same
    resolving instances.  [abs] maps a world to its abstract state and
    [label_of] an event to the abstract transition it performs;
    [step_refines] shows that every step of the client from a reachable
    world is the transition of the spec that [label_of] names. *)

From stdpp Require Import base option list gmap.
From S2P Require Import Prelude Types Store Effects Card Grid App Scenario.
From S2P Require Import Invariants.

Record AState := {
  a_current : option Track.t;
  a_resolving : Origin → bool;
}.

Inductive ALabel :=
| APlay (o : Origin)
| AResolved (o : Origin) (t : Track.t)
| AFailed (o : Origin)
| ATau.

Inductive Phase := Idle | Resolving | Active.

#[export] Instance AState_equiv : Equiv AState := λ a a',
  a_current a = a_current a' ∧ ∀ o, a_resolving a o = a_resolving a' o.

Definition a_init : AState :=
  {| a_current := None; a_resolving := λ _, false |}.

Definition set_resolving (o : Origin) (b : bool) (a : AState) : AState :=
  {| a_current := a_current a;
     a_resolving := λ o', if decide (o' = o) then b else a_resolving a o' |}.

Definition set_current (t : Track.t) (a : AState) : AState :=
  {| a_current := Some t; a_resolving := a_resolving a |}.

(** The state of the instance [o] when it stands for the song [id]. *)
Definition phase (a : AState) (o : Origin) (id : string) : Phase :=
  if a_resolving a o then Resolving
  else if SongCard.isPlaying (a_current a) id then Active
  else Idle.

(** The transitions of the spec; the target is given up to [≡]. *)
Inductive AStep : AState → ALabel → AState → Prop :=
| A_play a o a' :
    a_resolving a o = false → a' ≡ set_resolving o true a →
    AStep a (APlay o) a'
| A_play_ignored a o a' :
    a_resolving a o = true → a' ≡ a → AStep a (APlay o) a'
| A_resolved a o t a' :
    a_resolving a o = true →
    a' ≡ set_current t (set_resolving o false a) →
    AStep a (AResolved o t) a'
| A_failed a o a' :
    a_resolving a o = true → a' ≡ set_resolving o false a →
    AStep a (AFailed o) a'
| A_tau a a' : a' ≡ a → AStep a ATau a'.

(** A sequence of transitions. *)
Inductive ARun : AState → list ALabel → AState → Prop :=
| ARun_nil a a' : a' ≡ a → ARun a [] a'
| ARun_cons a l a1 ls a' :
    AStep a l a1 → ARun a1 ls a' → ARun a (l :: ls) a'.

Section refinement.
Context `{PlayerStoreOps St}.
Implicit Types (w : World St).

(** The abstract state of a world. *)
Definition abs w : AState :=
  {| a_current := getTrack (store w); a_resolving := loading w |}.

(** The abstract transition of an event, read off the world it happens
    in. *)
Definition label_of w (e : Event) : ALabel :=
  match e with
  | Click SongCard.PlayButton id => APlay (FromCard id)
  | DialogPlay => APlay FromDialog
  | Settle n r =>
      match pending w !! n with
      | Some p =>
          match awaiting p, r with
          | AwaitPlay, Fulfilled url =>
              AResolved (origin p) (track_of (captured p) url)
          | AwaitPlay, Rejected _ => AFailed (origin p)
          | AwaitDownload, _ => ATau
          end
      | None => ATau
      end
  | _ => ATau
  end.

(** The labels of a run. *)
Fixpoint labels_of w (es : list Event) : list ALabel :=
  match es with
  | [] => []
  | e :: es' =>
      label_of w e :: from_option (λ w', labels_of w' es') [] (step w e)
  end.

End refinement.

(** ** The equivalence of abstract states *)

#[export] Instance AState_equivalence : Equivalence (≡@{AState}).
Proof.
  split.
  - by intros a.
  - intros a b [? ?]. by split.
  - intros a b c [? Hab] [? Hbc]. split; [congruence |].
    intros o. by rewrite Hab.
Qed.

#[export] Instance a_current_proper : Proper ((≡) ==> (=)) a_current.
Proof. by intros a b [? _]. Qed.

#[export] Instance a_resolving_proper :
  Proper ((≡) ==> (=) ==> (=)) a_resolving.
Proof. intros a b [_ Hr] o ? <-. apply Hr. Qed.

#[export] Instance phase_proper : Proper ((≡) ==> (=) ==> (=) ==> (=)) phase.
Proof.
  intros a b [Hc Hr] o ? <- id ? <-. unfold phase. by rewrite Hr, Hc.
Qed.

#[export] Instance set_resolving_proper o b :
  Proper ((≡) ==> (≡)) (set_resolving o b).
Proof.
  intros a a' [Hc Hr]. split; simpl; [done |].
  intros o'. by rewrite Hr.
Qed.

#[export] Instance set_current_proper t : Proper ((≡) ==> (≡)) (set_current t).
Proof. intros a a' [Hc Hr]. by split. Qed.

#[export] Instance AStep_proper : Proper ((≡) ==> (=) ==> (≡) ==> iff) AStep.
Proof.
  assert (∀ a b l a' b', a ≡ b → a' ≡ b' → AStep a l a' → AStep b l b') as Hi.
  { intros a b l a' b' Hab Hab' HS.
    destruct HS; [eapply A_play | eapply A_play_ignored | eapply A_resolved
                 | eapply A_failed | eapply A_tau];
      rewrite <- ?Hab, <- ?Hab'; done. }
  intros a b Hab l ? <- a' b' Hab'. split; apply Hi; done.
Qed.

#[export] Instance ARun_proper : Proper ((≡) ==> (=) ==> (≡) ==> iff) ARun.
Proof.
  assert (∀ a b ls a' b', a ≡ b → a' ≡ b' → ARun a ls a' → ARun b ls b') as Hi.
  { intros a b ls a' b' Hab Hab' HR. revert b Hab.
    induction HR as [a a' E|a l a1 ls a' HS HR IH]; intros b Hab.
    - apply ARun_nil. by rewrite <- Hab', <- Hab.
    - eapply ARun_cons; [by rewrite <- Hab | by apply IH]. }
  intros a b Hab l ? <- a' b' Hab'. split; apply Hi; done.
Qed.

(** ** The phases of the spec's machine *)

Lemma phase_resolving a o id :
  a_resolving a o = true → phase a o id = Resolving.
Proof. unfold phase. by intros ->. Qed.

Lemma phase_not_resolving a o id :
  a_resolving a o = false →
  phase a o id = if SongCard.isPlaying (a_current a) id then Active else Idle.
Proof. unfold phase. by intros ->. Qed.

(** A play intent leaves its instance resolving, whether it was accepted or
    ignored. *)
Lemma AStep_play_phase a o a' id :
  AStep a (APlay o) a' → phase a' o id = Resolving.
Proof.
  intros HS. apply phase_resolving.
  inversion HS as [? ? ? ? E|? ? ? ? E| | |]; subst; rewrite E; simpl;
    [by rewrite decide_True | done].
Qed.

(** A resolution that succeeds leaves its instance active for the id of
    the track when the url is truthy, and idle for any other id. *)
Lemma AStep_resolved_phase a o t a' id :
  AStep a (AResolved o t) a' →
  phase a' o id = if SongCard.isPlaying (Some t) id then Active else Idle.
Proof.
  intros HS. inversion HS as [| |? ? ? ? ? E| |]; subst. rewrite E.
  rewrite phase_not_resolving; [done |]. simpl. by rewrite decide_True.
Qed.

(** A resolution that fails leaves its instance in the state the slot
    gives it: active when the slot still holds the instance's song, idle
    otherwise. *)
Lemma AStep_failed_phase a o a' id :
  AStep a (AFailed o) a' →
  phase a' o id
  = if SongCard.isPlaying (a_current a) id then Active else Idle.
Proof.
  intros HS. inversion HS as [| | |? ? ? ? E|]; subst. rewrite E.
  rewrite phase_not_resolving; [done |]. simpl. by rewrite decide_True.
Qed.

(** Only a resolution that succeeds changes the slot. *)
Lemma AStep_current a l a' :
  AStep a l a' →
  a_current a' = match l with AResolved _ t => Some t | _ => a_current a end.
Proof. intros HS. by destruct HS as [? ? ? ? E|? ? ? ? E|? ? ? ? ? E|? ? ? ? E|? ? E]; rewrite E. Qed.

(** ** The simulation *)

Section simulation.
Context `{PlayerStoreOps St}.
Implicit Types (w : World St).

Lemma abs_init songs0 : abs (init songs0) ≡ a_init.
Proof.
  split; simpl; [apply getTrack_emptyStore |].
  intros [id|]; simpl; [|done]. rewrite lookup_gset_to_gmap. by case_guard.
Qed.

(** A play request in flight belongs to an instance that is loading. *)
Lemma pending_play_loading songs0 w n p :
  reachable songs0 w → pending w !! n = Some p → awaiting p = AwaitPlay →
  loading w (origin p) = true.
Proof.
  intros Hw Hn Hk.
  pose proof (inv_loading_always songs0 w Hw (origin p)) as Hc.
  assert (p ∈ plays_of (origin p) (pending w)) as Hp.
  { apply list_elem_of_filter. split; [done |].
    by eapply list_elem_of_lookup_2. }
  destruct (loading w (origin p)); [done |].
  apply nil_length_inv in Hc. rewrite Hc in Hp. by apply elem_of_nil in Hp.
Qed.

(** Solves [abs w' ≡ f (abs w)] when [w'] is [w] under setters. *)
Ltac abs_equiv :=
  split; simpl;
  [ by rewrite ?getTrack_setTrack
  | intros ?; autorewrite with player_rw; repeat case_decide;
    simplify_eq/=;
    repeat match goal with Hx : ?x = _ |- context [?x] => rewrite Hx end;
    done ].

(** Solves a premise on a flag from the lookups in the context. *)
Ltac flag_premise :=
  first
    [ eassumption
    | simpl;
      repeat (match goal with Hx : ?x = _ |- context [?x] => rewrite Hx end;
              simpl);
      done ].

Lemma Step_refines songs0 w e w' :
  reachable songs0 w → Step w e w' → AStep (abs w) (label_of w e) (abs w').
Proof.
  intros Hw HS.
  destruct HS; simpl label_of;
    try match goal with
      | Hn : pending _ !! _ = Some ?p, Hk : awaiting ?p = AwaitPlay |- _ =>
          pose proof (pending_play_loading _ _ _ _ Hw Hn Hk) as Hload
      end;
    repeat match goal with Hx : ?x = _ |- context [?x] => rewrite Hx end;
    try match goal with Ho : origin _ = _ |- _ => rewrite Ho in * end;
    solve [ econstructor; first [ flag_premise | abs_equiv ] ].
Qed.

(** C19.  Every step of the client from a reachable world is the
    transition of the spec's state machine that the event stands for: a
    play click is a guarded play intent, a fulfilled play request a
    resolution that overwrites the slot, a rejected one a failure that
    keeps it, and everything else changes neither the slot nor the
    resolving instances. *)
Theorem step_refines songs0 w e w' :
  reachable songs0 w → step w e = Some w' →
  AStep (abs w) (label_of w e) (abs w').
Proof. intros Hw HS%step_Step. by eapply Step_refines. Qed.

(** C20.  When a play request is rejected, the instance that made it
    returns to the state the store gives its song: idle when another track
    or none is current, and active, not idle, when the song was already
    the current track. *)
Theorem rejected_play_phase songs0 w n p e w' id :
  reachable songs0 w → pending w !! n = Some p → awaiting p = AwaitPlay →
  step w (Settle n (Rejected e)) = Some w' →
  phase (abs w') (origin p) id
  = if SongCard.isPlaying (getTrack (store w)) id then Active else Idle.
Proof.
  intros Hw Hn Hk HS%step_Step.
  pose proof (Step_refines _ _ _ _ Hw HS) as HA.
  simpl in HA. rewrite Hn, Hk in HA.
  exact (AStep_failed_phase (abs w) (origin p) (abs w') id HA).
Qed.

(** C4.  Every run of the client from the first render is a run of the
    spec's state machine from its initial state, with the labels of the
    events. *)
Theorem run_refines songs0 es w' :
  run (init songs0) es = Some w' →
  ARun a_init (labels_of (init songs0) es) (abs w').
Proof.
  rewrite <- (abs_init songs0).
  generalize (reachable_init (St:=St) songs0).
  generalize (init (St:=St) songs0) as w.
  induction es as [|e es IH]; intros w Hw Hr; simpl in *.
  - simplify_eq. by apply ARun_nil.
  - destruct (step w e) as [w1|] eqn:E; [|done]. simpl.
    eapply ARun_cons; [eapply Step_refines; [done | by apply step_Step] |].
    apply IH; [by eapply reachable_step | done].
Qed.

End simulation.

Lemma step_refines_witness :
  let w := demo_run two_clicks in
  let w' := demo_run (two_clicks ++ [Settle 1 (Fulfilled "https://cdn/S2")]) in
  AStep (abs w) (AResolved (FromCard "S2") (track_of S2 "https://cdn/S2"))
        (abs w').
Proof.
  intros w w'.
  apply (step_refines demo_songs w (Settle 1 (Fulfilled "https://cdn/S2")) w');
    [apply demo_run_reachable | vm_compute; reflexivity].
Defined.

Lemma run_refines_witness :
  ARun a_init
       [APlay (FromCard "S1"); APlay (FromCard "S2");
        AResolved (FromCard "S2") (track_of S2 "https://cdn/S2");
        AResolved (FromCard "S1") (track_of S1 "https://cdn/S1")]
       (abs (demo_run later_request_first)).
Proof.
  apply (run_refines demo_songs later_request_first
           (demo_run later_request_first)).
  vm_compute. reflexivity.
Defined.

(** Play is clicked on the card of S1, the request is fulfilled, play is
    clicked again and the second request is rejected. *)
Definition replay_rejected : list Event :=
  [Click SongCard.PlayButton "S1"; Settle 0 (Fulfilled "https://cdn/S1");
   Click SongCard.PlayButton "S1"].

Lemma rejected_play_phase_witness :
  phase (abs (demo_run (replay_rejected ++ [Settle 0 (Rejected (Thrown "x"))])))
        (FromCard "S1") "S1"
  = Active.
Proof.
  etransitivity;
    [apply (rejected_play_phase demo_songs (demo_run replay_rejected) 0
              (request (FromCard "S1") AwaitPlay S1) (Thrown "x"));
     [apply demo_run_reachable | vm_compute; reflexivity..] |].
  vm_compute. reflexivity.
Defined.
