(* ===== verification/Query.v ===== *)
(** * Query: the [findMany] call of [home-songs-fetcher.tsx]

    The fetcher passes [db.song.findMany] an object with a [where], an
    [include] and an [orderBy].  [FindManyArgs] is that object as data and
    [homeQuery] the value the source builds for a viewer.  The database
    client is outside the repository: [findMany] gives the meaning its
    documentation and the spec give the call (a row is returned when one
    of the [OR] conditions holds, a condition holds when all its fields
    match, rows are ordered by the [orderBy] key and keep their table
    order among equal keys, [include] joins the user by [userId]). *)

From Stdlib Require Import ZArith.
From stdpp Require Import base option list sorting.
From S2P Require Import Prelude Types.

(** A condition on a string field: [field: s] or [field: { not: s }]. *)
Inductive StringFilter :=
| Equals (s : string)
| Not (s : string).

(** One object of conditions on a song; an absent field is not tested. *)
Record SongWhere := {
  w_userId : option StringFilter;
  w_published : option bool;
}.

Inductive SortOrder := asc | desc.

Record FindManyArgs := {
  where_OR : list SongWhere;
  include_user : bool;
  orderBy_createdAt : SortOrder;
}.

(** A returned row: the song and, when included, its user. *)
Record SongWithUser := {
  song : Song.t;
  user : option User.t;
}.

Record Database := {
  songTable : list Song.t;
  userTable : list User.t;
}.

#[export] Instance StringFilter_eq_dec : EqDecision StringFilter.
Proof. solve_decision. Defined.
#[export] Instance SongWhere_eq_dec : EqDecision SongWhere.
Proof. solve_decision. Defined.
#[export] Instance SortOrder_eq_dec : EqDecision SortOrder.
Proof. solve_decision. Defined.
#[export] Instance FindManyArgs_eq_dec : EqDecision FindManyArgs.
Proof. solve_decision. Defined.
#[export] Instance SongWithUser_eq_dec : EqDecision SongWithUser.
Proof. solve_decision. Defined.

(** The argument of the fetcher's call for the viewer [viewerId]. *)
Definition homeQuery (viewerId : string) : FindManyArgs :=
  {| where_OR :=
       [ {| w_userId := Some (Equals viewerId); w_published := None |};
         {| w_userId := Some (Not viewerId); w_published := Some true |} ];
     include_user := true;
     orderBy_createdAt := desc |}.

Definition matches_filter (f : StringFilter) (s : string) : bool :=
  match f with
  | Equals x => bool_decide (s = x)
  | Not x => bool_decide (s ≠ x)
  end.

Definition matches (c : SongWhere) (s : Song.t) : bool :=
  from_option (λ f, matches_filter f (Song.userId s)) true (w_userId c)
  && from_option (λ b, bool_decide (Song.published s = b)) true (w_published c).

Definition matches_OR (cs : list SongWhere) (s : Song.t) : bool :=
  existsb (λ c, matches c s) cs.

(** ** Sorting by a key, keeping equal keys in their order *)

Section sort.
Context {A : Type} (key : A → Z).

(** [x] goes before the first element whose key is not greater. *)
Fixpoint insert_desc (x : A) (l : list A) : list A :=
  match l with
  | [] => [x]
  | y :: l' =>
      if bool_decide (key y ≤ key x)%Z then x :: y :: l'
      else y :: insert_desc x l'
  end.

Definition sort_desc (l : list A) : list A := foldr insert_desc [] l.

(** Descending order of the keys. *)
Definition key_ge (x y : A) : Prop := (key y ≤ key x)%Z.

End sort.

Definition sort_by {A} (o : SortOrder) (key : A → Z) (l : list A) : list A :=
  match o with
  | desc => sort_desc key l
  | asc => sort_desc (λ x, - key x)%Z l
  end.

(** [include: { user: ... }] *)
Definition join_user (db : Database) (include : bool) (s : Song.t)
  : SongWithUser :=
  {| song := s;
     user := if include
             then snd <$> list_find (λ u, User.id u = Song.userId s)
                                    (userTable db)
             else None |}.

Definition findMany (db : Database) (args : FindManyArgs) : list SongWithUser :=
  join_user db (include_user args)
    <$> sort_by (orderBy_createdAt args) Song.createdAt
          (filter (λ s, matches_OR (where_OR args) s = true) (songTable db)).

(** Whether a viewer may see a song: the rule of the spec. *)
Definition visible (viewerId : string) (s : Song.t) : Prop :=
  Song.userId s = viewerId ∨ Song.published s = true.

#[export] Instance visible_dec viewerId s : Decision (visible viewerId s).
Proof. unfold visible. apply _. Defined.

(** ** The tables of the spec's scenario

    Viewer A owns S1 (not published) and S2 (published); viewer B owns S3
    (published) and S4 (not published, with a thumbnail key). *)

Definition demo_row (id title : string) (at_ : Z) (owner : string)
    (published : bool) (key : option string) : Song.t :=
  {| Song.id := id;
     Song.title := Some title;
     Song.createdAt := at_;
     Song.instrumental := false;
     Song.prompt := None;
     Song.lyrics := None;
     Song.describedLyrics := None;
     Song.fullDescribedSong := None;
     Song.thumbnailS3Key := key;
     Song.status := Some "processed";
     Song.userId := owner;
     Song.published := published |}.

Definition row_S1 : Song.t := demo_row "S1" "first" 10 "A" false None.
Definition row_S2 : Song.t := demo_row "S2" "second" 20 "A" true None.
Definition row_S3 : Song.t := demo_row "S3" "third" 30 "B" true (Some "").
Definition row_S4 : Song.t :=
  demo_row "S4" "fourth" 40 "B" false (Some "thumbs/S4.png").

Definition demo_db : Database :=
  {| songTable := [row_S1; row_S2; row_S3; row_S4];
     userTable := [User.mk "A" (Some "A"); User.mk "B" (Some "B")] |}.

(** ** The sort *)

Section sort_facts.
Context {A : Type} (key : A → Z).
Implicit Types (x y : A) (l : list A).

#[export] Instance key_ge_trans : Transitive (key_ge key).
Proof. intros x y z. unfold key_ge. lia. Qed.

#[export] Instance key_ge_dec x y : Decision (key_ge key x y).
Proof. unfold key_ge. apply _. Defined.

Lemma insert_desc_perm x l : insert_desc key x l ≡ₚ x :: l.
Proof.
  induction l as [|y l IH]; simpl; [done |].
  case_bool_decide; [done |]. by rewrite IH, Permutation_swap.
Qed.

Lemma sort_desc_perm l : sort_desc key l ≡ₚ l.
Proof.
  induction l as [|x l IH]; simpl; [done |].
  by rewrite insert_desc_perm, IH.
Qed.

Lemma insert_desc_sorted x l :
  StronglySorted (key_ge key) l → StronglySorted (key_ge key) (insert_desc key x l).
Proof.
  induction 1 as [|y l Hl IH Hy]; simpl; [by repeat constructor |].
  case_bool_decide as Hk.
  - constructor; [by constructor |]. constructor; [done |].
    eapply Forall_impl; [done |]. unfold key_ge in *. intros z ?. lia.
  - constructor; [done |].
    rewrite insert_desc_perm. constructor; [|done].
    unfold key_ge. lia.
Qed.

Lemma sort_desc_sorted l : StronglySorted (key_ge key) (sort_desc key l).
Proof.
  induction l as [|x l IH]; simpl; [constructor |].
  by apply insert_desc_sorted.
Qed.



Lemma sort_desc_length l : length (sort_desc key l) = length l.
Proof. by rewrite sort_desc_perm. Qed.

Lemma sort_desc_elem_of x l : x ∈ sort_desc key l ↔ x ∈ l.
Proof. by rewrite sort_desc_perm. Qed.

(** A list that is already in descending order is returned as it is. *)
Lemma sort_desc_sorted_id l :
  StronglySorted (key_ge key) l → sort_desc key l = l.
Proof.
  induction 1 as [|x l Hl IH Hx]; simpl; [done |]. rewrite IH.
  destruct l as [|y l]; simpl; [done |].
  apply Forall_cons in Hx as [Hy _]. by rewrite bool_decide_true.
Qed.

Lemma sort_desc_idem l : sort_desc key (sort_desc key l) = sort_desc key l.
Proof. apply sort_desc_sorted_id, sort_desc_sorted. Qed.

End sort_facts.

(** Sorting through a projection. *)
Lemma key_ge_fmap {A B} (f : A → B) (key : B → Z) (l : list A) :
  StronglySorted (key_ge key) (f <$> l) ↔ StronglySorted (key_ge (key ∘ f)) l.
Proof.
  induction l as [|x l IH]; csimpl; [by split; constructor |].
  by rewrite !StronglySorted_cons, IH, Forall_fmap.
Qed.

(** ** The query of the home page *)

Section query_facts.
Implicit Types (db : Database) (s : Song.t) (viewerId : string).

Lemma matches_OR_iff cs s :
  matches_OR cs s = true ↔ ∃ c, c ∈ cs ∧ matches c s = true.
Proof.
  unfold matches_OR. rewrite existsb_exists.
  by setoid_rewrite <- list_elem_of_In.
Qed.

(** The two conditions of the home page, evaluated. *)
Lemma homeQuery_matches viewerId s :
  matches_OR (where_OR (homeQuery viewerId)) s
  = bool_decide (Song.userId s = viewerId)
    || bool_decide (Song.userId s ≠ viewerId) && Song.published s.
Proof.
  unfold matches_OR, matches. simpl. rewrite orb_false_r.
  by destruct (Song.published s); repeat case_bool_decide.
Qed.

Lemma homeQuery_filter viewerId (l : list Song.t) :
  filter (λ s, matches_OR (where_OR (homeQuery viewerId)) s = true) l
  = filter (visible viewerId) l.
Proof.
  apply list_filter_iff. intros s. rewrite homeQuery_matches. unfold visible.
  destruct (Song.published s); repeat case_bool_decide; naive_solver.
Qed.

(** C3.  The [where] of the home page selects the songs the viewer may see. *)
Theorem homeQuery_visible viewerId s :
  matches_OR (where_OR (homeQuery viewerId)) s = true ↔ visible viewerId s.
Proof.
  rewrite homeQuery_matches. unfold visible.
  destruct (Song.published s); repeat case_bool_decide; naive_solver.
Qed.

(** The two conditions of the [OR] never hold together: no song is selected
    twice. *)
Lemma homeQuery_disjoint viewerId s :
  length (filter (λ c, matches c s = true) (where_OR (homeQuery viewerId))) ≤ 1.
Proof.
  unfold matches. simpl. rewrite !filter_cons, filter_nil. simpl.
  repeat case_decide; repeat case_bool_decide; simpl in *; try lia; naive_solver.
Qed.

Lemma sort_by_perm {A} o (key : A → Z) l : sort_by o key l ≡ₚ l.
Proof. destruct o; apply sort_desc_perm. Qed.

Lemma findMany_song db args :
  song <$> findMany db args
  = sort_by (orderBy_createdAt args) Song.createdAt
      (filter (λ s, matches_OR (where_OR args) s = true) (songTable db)).
Proof.
  unfold findMany. rewrite <- list_fmap_compose.
  rewrite <- (list_fmap_id (sort_by _ _ _)) at 2. by apply list_fmap_ext.
Qed.

(** The rows are the songs of the table that satisfy the [where], each as
    often as the table has it. *)
Lemma findMany_perm db args :
  song <$> findMany db args
  ≡ₚ filter (λ s, matches_OR (where_OR args) s = true) (songTable db).
Proof. rewrite findMany_song. apply sort_by_perm. Qed.

(** C16.  A song is among the rows of the viewer exactly when the table has it
    and the viewer owns it or it is published. *)
Theorem findMany_home_elem_of db viewerId s :
  s ∈ song <$> findMany db (homeQuery viewerId)
  ↔ s ∈ songTable db ∧ visible viewerId s.
Proof.
  rewrite findMany_perm, homeQuery_filter, list_elem_of_filter. tauto.
Qed.

(** C8.  Newest first. *)
Theorem findMany_home_sorted db viewerId :
  StronglySorted (key_ge Song.createdAt)
    (song <$> findMany db (homeQuery viewerId)).
Proof. rewrite findMany_song. apply sort_desc_sorted. Qed.


Lemma findMany_home_length db viewerId :
  length (findMany db (homeQuery viewerId))
  = length (filter (visible viewerId) (songTable db)).
Proof.
  by rewrite <- (length_fmap song), findMany_perm, homeQuery_filter.
Qed.

(** A song of another user that is not published is never returned. *)
Theorem findMany_home_private db viewerId s :
  Song.userId s ≠ viewerId → Song.published s = false →
  s ∉ song <$> findMany db (homeQuery viewerId).
Proof.
  intros Hu Hp. rewrite findMany_perm, homeQuery_filter, list_elem_of_filter.
  unfold visible. rewrite Hp. naive_solver.
Qed.

(** The joined user is the one the song names. *)
Lemma findMany_user db viewerId r u :
  r ∈ findMany db (homeQuery viewerId) → user r = Some u →
  u ∈ userTable db ∧ User.id u = Song.userId (song r).
Proof.
  unfold findMany. rewrite list_elem_of_fmap. intros (s & -> & _). simpl.
  destruct (list_find _ _) as [[i u']|] eqn:E; [|done].
  intros [= <-]. apply list_find_Some in E as (Hi & ? & _).
  split; [by eapply list_elem_of_lookup_2 | done].
Qed.

Lemma findMany_user_None db viewerId r :
  r ∈ findMany db (homeQuery viewerId) → user r = None →
  ∀ u, u ∈ userTable db → User.id u ≠ Song.userId (song r).
Proof.
  unfold findMany. rewrite list_elem_of_fmap. intros (s & -> & _). simpl.
  destruct (list_find _ _) as [[i u']|] eqn:E; [done |]. intros _.
  apply list_find_None in E. by apply Forall_forall.
Qed.

End query_facts.

(** ** The scenario of the spec *)

Example demo_findMany_A :
  song <$> findMany demo_db (homeQuery "A") = [row_S3; row_S2; row_S1].
Proof. vm_compute. reflexivity. Qed.

Example demo_findMany_B :
  song <$> findMany demo_db (homeQuery "B") = [row_S4; row_S3; row_S2].
Proof. vm_compute. reflexivity. Qed.

Example demo_findMany_names :
  (λ r, user r ≫= User.name) <$> findMany demo_db (homeQuery "A")
  = [Some "B"; Some "A"; Some "A"].
Proof. vm_compute. reflexivity. Qed.

Lemma findMany_home_private_witness :
  row_S4 ∉ song <$> findMany demo_db (homeQuery "A").
Proof. apply findMany_home_private; [by vm_compute | reflexivity]. Defined.
