(* ===== verification/Fetcher.v ===== *)
(** * Fetcher: the server components [HomeSongsFetcher] and [HomePage]

    The two components run once per request, against collaborators the
    repository imports: the session library, the database client and the
    signer of thumbnail keys.  [Backend] is what a request finds there.  A
    component is a computation in the monad [Server], which records the
    calls made (in the order they are made) and ends in a value, in a
    redirect or in a thrown error.  [Promise.all] over [songs.map] starts
    the body of every element before any of them is awaited, so every
    signer call of the list is in the trace whether or not one of them
    fails. *)

From Stdlib Require Import ZArith.
From stdpp Require Import base option list sorting.
From S2P Require Import Prelude Types Query.

(** [session.user] *)
Record Session := {
  session_user : User.t;
}.

(** The collaborators, as one request sees them.  [getSession n] is the
    answer to the lookup made after [n] earlier lookups of the request. *)
Record Backend := {
  getSession : nat → option Session;
  database : Database;
  getPreSignedUrl : string → Settled string;
}.

Inductive Call :=
| Headers                            (* headers() *)
| GetSession                         (* auth.api.getSession({ headers }) *)
| FindMany (args : FindManyArgs)     (* db.song.findMany(args) *)
| GetPreSignedUrl (key : string).    (* getPreSignedUrl(key) *)

(** How a server component ends. *)
Inductive Outcome (A : Type) :=
| Return (a : A)
| Redirect (path : string)           (* redirect(path) *)
| Throw (e : JsError).
Arguments Return {A} a.
Arguments Redirect {A} path.
Arguments Throw {A} e.

#[export] Instance Call_eq_dec : EqDecision Call.
Proof. solve_decision. Defined.
#[export] Instance Outcome_eq_dec `{EqDecision A} : EqDecision (Outcome A).
Proof. solve_decision. Defined.

#[export] Instance Outcome_fmap : FMap Outcome := λ A B f o,
  match o with
  | Return a => Return (f a)
  | Redirect path => Redirect path
  | Throw e => Throw e
  end.

(** A computation takes the calls made so far and gives the calls made
    when it ends, and its outcome. *)
Definition Server (A : Type) : Type := list Call → list Call * Outcome A.

#[export] Instance Server_ret : MRet Server := λ A a tr, (tr, Return a).

#[export] Instance Server_bind : MBind Server := λ A B k m tr,
  match m tr with
  | (tr', Return a) => k a tr'
  | (tr', Redirect path) => (tr', Redirect path)
  | (tr', Throw e) => (tr', Throw e)
  end.

#[export] Instance Server_fmap : FMap Server := λ A B f m,
  a ← m; mret (f a).

Definition redirect {A} (path : string) : Server A := λ tr, (tr, Redirect path).

Definition call (c : Call) : Server () := λ tr, (tr ++ [c], Return ()).

Definition session_lookups (tr : list Call) : nat :=
  length (filter (λ c, c = GetSession) tr).

(** How a promise a component awaits ends for the component. *)
Definition await {A} (p : Settled A) : Server A := λ tr,
  match p with
  | Fulfilled a => (tr, Return a)
  | Rejected e => (tr, Throw e)
  end.

Section server.
Context (B : Backend).

Definition auth_getSession : Server (option Session) := λ tr,
  (tr ++ [Headers; GetSession], Return (getSession B (session_lookups tr))).

Definition db_song_findMany (args : FindManyArgs) : Server (list SongWithUser) :=
  call (FindMany args);; mret (findMany (database B) args).

Definition call_getPreSignedUrl (key : string) : Server string :=
  call (GetPreSignedUrl key);; await (getPreSignedUrl B key).

(** [Promise.all(l.map(f))]: every body is started, in the order of the
    list; the result is every value, or the failure of the first element
    that fails. *)
Fixpoint Promise_all_map {X Y} (f : X → Server Y) (l : list X)
  : Server (list Y) := λ tr,
  match l with
  | [] => (tr, Return [])
  | x :: l' =>
      let '(tr1, o) := f x tr in
      let '(tr2, os) := Promise_all_map f l' tr1 in
      (tr2, match o, os with
            | Return y, Return ys => Return (y :: ys)
            | Return _, Redirect path => Redirect path
            | Return _, Throw e => Throw e
            | Redirect path, _ => Redirect path
            | Throw e, _ => Throw e
            end)
  end.

(** The object the fetcher builds for one row. *)
Definition props_of (viewer : Session) (r : SongWithUser)
    (thumbnailUrl : option string) : SongCardProps.t :=
  {| SongCardProps.id := Song.id (song r);
     SongCardProps.title := Song.title (song r);
     SongCardProps.createdAt := Song.createdAt (song r);
     SongCardProps.instrumental := Song.instrumental (song r);
     SongCardProps.prompt := Song.prompt (song r);
     SongCardProps.lyrics := Song.lyrics (song r);
     SongCardProps.describedLyrics := Song.describedLyrics (song r);
     SongCardProps.fullDescribedSong := Song.fullDescribedSong (song r);
     SongCardProps.thumbnailUrl := thumbnailUrl;
     SongCardProps.playUrl := None;
     SongCardProps.status := Song.status (song r);
     SongCardProps.createdByUserName := user r ≫= User.name;
     SongCardProps.published := Song.published (song r);
     SongCardProps.isOwnSong :=
       Some (bool_decide (Song.userId (song r)
                          = User.id (session_user viewer))) |}.

(** The key the fetcher signs for a row: a key that is present and not
    empty. *)
Definition signed_key (r : SongWithUser) : option string :=
  match Song.thumbnailS3Key (song r) with
  | Some key => if truthy (Some key) then Some key else None
  | None => None
  end.

(** The body of [songs.map(async (song) => ...)]. *)
Definition project (viewer : Session) (r : SongWithUser)
  : Server SongCardProps.t :=
  thumbnailUrl ← match signed_key r with
                 | Some key => Some <$> call_getPreSignedUrl key
                 | None => mret None
                 end;
  mret (props_of viewer r thumbnailUrl).

(** [HomeSongsFetcher]: the [songs] prop of the [SongGrid] it returns. *)
Definition HomeSongsFetcher : Server (list SongCardProps.t) :=
  session ← auth_getSession;
  match session with
  | None => redirect "/auth/sign-in"
  | Some session =>
      songs ← db_song_findMany (homeQuery (User.id (session_user session)));
      Promise_all_map (project session) songs
  end.

(** The page: the heading, the tagline and what [HomeSongsFetcher]
    renders. *)
Record Page := {
  heading : string;
  tagline : string;
  grid_songs : list SongCardProps.t;
}.

Definition HomePage : Server Page :=
  session ← auth_getSession;
  match session with
  | None => redirect "/auth/sign-in"
  | Some _ =>
      songs ← HomeSongsFetcher;
      mret {| heading := "Discover Music";
              tagline := "Explore amazing songs created by our community";
              grid_songs := songs |}
  end.

(** ** Reference definitions *)

(** The rows the viewer is shown. *)
Definition rows_for (viewer : Session) : list SongWithUser :=
  findMany (database B) (homeQuery (User.id (session_user viewer))).

(** The answer of the signer for a row. *)
Definition thumbnail_of (r : SongWithUser) : Settled (option string) :=
  match signed_key r with
  | Some key =>
      match getPreSignedUrl B key with
      | Fulfilled url => Fulfilled (Some url)
      | Rejected e => Rejected e
      end
  | None => Fulfilled None
  end.

(** The promise [Promise.all] waits for, one per row. *)
Definition projected (viewer : Session) (r : SongWithUser)
  : Settled SongCardProps.t :=
  match thumbnail_of r with
  | Fulfilled u => Fulfilled (props_of viewer r u)
  | Rejected e => Rejected e
  end.

Definition signer_calls (rows : list SongWithUser) : list Call :=
  GetPreSignedUrl <$> omap signed_key rows.

(** Whether the signer answers for a row. *)
Definition thumbnail_ok (r : SongWithUser) : bool :=
  match thumbnail_of r with
  | Fulfilled _ => true
  | Rejected _ => false
  end.

Definition thumbnailUrl_of (r : SongWithUser) : option string :=
  match thumbnail_of r with
  | Fulfilled url => url
  | Rejected _ => None
  end.

(** The props the viewer's grid receives when the signer answers for every
    row. *)
Definition songs_for (viewer : Session) : list SongCardProps.t :=
  (λ r, props_of viewer r (thumbnailUrl_of r)) <$> rows_for viewer.

End server.

(** A settled promise as an outcome. *)
Definition outcome_of {A} (p : Settled A) : Outcome A :=
  match p with
  | Fulfilled a => Return a
  | Rejected e => Throw e
  end.

(** What a request makes of a component: it starts with no call made. *)
Definition serve {A} (m : Server A) : list Call * Outcome A := m [].

(** The calls that read the data of users: the query and the signer. *)
Definition reads_data (c : Call) : bool :=
  match c with
  | Headers | GetSession => false
  | FindMany _ | GetPreSignedUrl _ => true
  end.

(** ** The backend of the spec's scenario *)

(** The signer of the scenario: it fails for the keys of [broken]. *)
Definition demo_signer (broken : list string) (key : string) : Settled string :=
  if bool_decide (key ∈ broken)
  then Rejected (ErrorObject "signer unavailable")
  else Fulfilled ("https://cdn/" +:+ key).

Definition demo_session (id : string) : Session :=
  {| session_user := User.mk id (Some id) |}.

(** A request of the viewer [id] with a session that lasts for the first
    [lookups] lookups. *)
Definition demo_backend (id : string) (lookups : nat) (broken : list string)
  : Backend :=
  {| getSession := λ n, if decide (n < lookups)
                        then Some (demo_session id) else None;
     database := demo_db;
     getPreSignedUrl := demo_signer broken |}.

(** ** The monad *)

Section monad_facts.
Context {X Y Z : Type}.
Implicit Types (tr : list Call).

Lemma Server_bind_ret (m : Server X) tr : (m ≫= mret) tr = m tr.
Proof. unfold mbind, Server_bind. by destruct (m tr) as [? []]. Qed.

Lemma Server_ret_bind (x : X) (k : X → Server Y) tr : (mret x ≫= k) tr = k x tr.
Proof. reflexivity. Qed.

Lemma Server_bind_assoc (m : Server X) (k : X → Server Y) (h : Y → Server Z) tr :
  ((m ≫= k) ≫= h) tr = (m ≫= λ x, k x ≫= h) tr.
Proof. unfold mbind, Server_bind. by destruct (m tr) as [? []]. Qed.

Lemma Server_bind_Return (m : Server X) (k : X → Server Y) tr tr' x :
  m tr = (tr', Return x) → (m ≫= k) tr = k x tr'.
Proof. unfold mbind, Server_bind. by intros ->. Qed.

Lemma Server_bind_Redirect (m : Server X) (k : X → Server Y) tr tr' path :
  m tr = (tr', Redirect path) → (m ≫= k) tr = (tr', Redirect path).
Proof. unfold mbind, Server_bind. by intros ->. Qed.

Lemma Server_bind_Throw (m : Server X) (k : X → Server Y) tr tr' e :
  m tr = (tr', Throw e) → (m ≫= k) tr = (tr', Throw e).
Proof. unfold mbind, Server_bind. by intros ->. Qed.

Lemma Server_fmap_outcome (f : X → Y) (p : Settled X) (m : Server X) tr tr' :
  m tr = (tr', outcome_of p) →
  (f <$> m) tr
  = (tr', outcome_of match p with
                     | Fulfilled x => Fulfilled (f x)
                     | Rejected e => Rejected e
                     end).
Proof.
  unfold fmap, Server_fmap, mbind, Server_bind. intros ->. by destruct p.
Qed.

(** When every body makes calls that do not depend on the calls made before
    and ends as a promise does, [Promise_all_map] makes the calls of every
    element and ends as [Promise.all] of the promises. *)
Lemma Promise_all_map_settled (f : X → Server Y) (c : X → list Call)
    (g : X → Settled Y) (l : list X) tr :
  (∀ x tr, f x tr = (tr ++ c x, outcome_of (g x))) →
  Promise_all_map f l tr = (tr ++ l ≫= c, outcome_of (Promise_all (g <$> l))).
Proof.
  intros Hf. revert tr. induction l as [|x l IH]; intros tr; csimpl.
  - by rewrite app_nil_r.
  - rewrite Hf, IH, <- app_assoc.
    by destruct (g x), (Promise_all (g <$> l)).
Qed.

End monad_facts.

Lemma session_lookups_app tr1 tr2 :
  session_lookups (tr1 ++ tr2) = session_lookups tr1 + session_lookups tr2.
Proof. unfold session_lookups. by rewrite filter_app, length_app. Qed.

(** ** The fetcher *)

Section fetcher_facts.
Context (B : Backend).
Implicit Types (tr : list Call) (viewer : Session) (r : SongWithUser).

Lemma signed_key_truthy r key :
  signed_key r = Some key ↔
  Song.thumbnailS3Key (song r) = Some key ∧ truthy (Some key) = true.
Proof.
  unfold signed_key.
  destruct (Song.thumbnailS3Key (song r)) as [k|]; [|by split; [|intros []]].
  destruct (truthy (Some k)) eqn:E; split;
    [by intros [= ->] | by intros [[= ->] _] | done | intros [[= ->] ?]; congruence].
Qed.

Lemma signed_key_nonempty r : signed_key r ≠ Some "".
Proof. intros H. by apply signed_key_truthy in H as [_ H]. Qed.

Lemma signed_key_None r :
  signed_key r = None ↔ truthy (Song.thumbnailS3Key (song r)) = false.
Proof.
  unfold signed_key. destruct (Song.thumbnailS3Key (song r)) as [k|]; [|done].
  destruct (truthy (Some k)); naive_solver.
Qed.

Lemma call_getPreSignedUrl_run key tr :
  call_getPreSignedUrl B key tr
  = (tr ++ [GetPreSignedUrl key], outcome_of (getPreSignedUrl B key)).
Proof.
  unfold call_getPreSignedUrl, mbind, Server_bind, call, await. simpl.
  by destruct (getPreSignedUrl B key).
Qed.

(** One body: at most one call of the signer, and the row's props when the
    signer answers. *)
Lemma project_run viewer r tr :
  project B viewer r tr
  = (tr ++ option_list (GetPreSignedUrl <$> signed_key r),
     outcome_of (projected B viewer r)).
Proof.
  unfold project, projected, thumbnail_of.
  destruct (signed_key r) as [key|]; simpl.
  - unfold mbind at 1, Server_bind at 1.
    erewrite Server_fmap_outcome by apply call_getPreSignedUrl_run.
    by destruct (getPreSignedUrl B key).
  - by rewrite app_nil_r.
Qed.

Lemma signer_calls_bind (rows : list SongWithUser) :
  rows ≫= (λ r, option_list (GetPreSignedUrl <$> signed_key r))
  = signer_calls rows.
Proof.
  unfold signer_calls. induction rows as [|r rows IH]; csimpl; [done |].
  rewrite IH. by destruct (signed_key r).
Qed.

Lemma Promise_all_map_project viewer rows tr :
  Promise_all_map (project B viewer) rows tr
  = (tr ++ signer_calls rows,
     outcome_of (Promise_all (projected B viewer <$> rows))).
Proof.
  rewrite <- signer_calls_bind.
  apply Promise_all_map_settled. intros r tr'. apply project_run.
Qed.

(** The whole of [HomeSongsFetcher], from any point of a request. *)
Lemma HomeSongsFetcher_run tr :
  HomeSongsFetcher B tr
  = match getSession B (session_lookups tr) with
    | None => (tr ++ [Headers; GetSession], Redirect "/auth/sign-in")
    | Some viewer =>
        (tr ++ Headers :: GetSession
            :: FindMany (homeQuery (User.id (session_user viewer)))
            :: signer_calls (rows_for B viewer),
         outcome_of (Promise_all (projected B viewer <$> rows_for B viewer)))
    end.
Proof.
  unfold HomeSongsFetcher.
  erewrite Server_bind_Return by reflexivity.
  destruct (getSession B (session_lookups tr)) as [viewer|]; [|done].
  unfold db_song_findMany.
  erewrite Server_bind_assoc, (Server_bind_Return (call _)) by reflexivity.
  rewrite Server_ret_bind, Promise_all_map_project.
  by rewrite <- !app_assoc.
Qed.

Lemma HomeSongsFetcher_serve :
  serve (HomeSongsFetcher B)
  = match getSession B 0 with
    | None => ([Headers; GetSession], Redirect "/auth/sign-in")
    | Some viewer =>
        (Headers :: GetSession
           :: FindMany (homeQuery (User.id (session_user viewer)))
           :: signer_calls (rows_for B viewer),
         outcome_of (Promise_all (projected B viewer <$> rows_for B viewer)))
    end.
Proof. unfold serve. by rewrite HomeSongsFetcher_run. Qed.

(** C5.  The calls of a request: the session lookup, and with a session the
    viewer's query and then one signer call for every row with a non-empty
    key, in the order of the rows, whether or not the signer answers. *)
Theorem fetcher_calls :
  (serve (HomeSongsFetcher B)).1
  = Headers :: GetSession
      :: from_option
           (λ viewer,
              FindMany (homeQuery (User.id (session_user viewer)))
                :: (GetPreSignedUrl
                      <$> omap signed_key
                            (findMany (database B)
                               (homeQuery (User.id (session_user viewer))))))
           [] (getSession B 0).
Proof. rewrite HomeSongsFetcher_serve. by destruct (getSession B 0). Qed.

End fetcher_facts.

(** ** What the fetcher returns *)

Section outcome_facts.
Context (B : Backend).
Implicit Types (viewer : Session) (r : SongWithUser) (p : SongCardProps.t).

Lemma projected_ok viewer r :
  thumbnail_ok B r = true →
  projected B viewer r = Fulfilled (props_of viewer r (thumbnailUrl_of B r)).
Proof.
  unfold thumbnail_ok, projected, thumbnailUrl_of.
  by destruct (thumbnail_of B r).
Qed.

Lemma projected_not_ok viewer r :
  thumbnail_ok B r = false → ∃ e, projected B viewer r = Rejected e.
Proof.
  unfold thumbnail_ok, projected. destruct (thumbnail_of B r); [done | eauto].
Qed.

Lemma projected_Fulfilled viewer r p :
  projected B viewer r = Fulfilled p →
  thumbnail_ok B r = true ∧ p = props_of viewer r (thumbnailUrl_of B r).
Proof.
  unfold thumbnail_ok, projected, thumbnailUrl_of.
  destruct (thumbnail_of B r); [by intros [= <-] | done].
Qed.

(** C14.  A request without a session is redirected to the sign-in page; the
    database and the signer are not called. *)
Theorem fetcher_redirects :
  getSession B 0 = None →
  serve (HomeSongsFetcher B)
  = ([Headers; GetSession], Redirect "/auth/sign-in").
Proof. intros H. by rewrite HomeSongsFetcher_serve, H. Qed.

(** C15.  With a session, and when the signer answers for every row that has a
    key, the fetcher returns the projection of the viewer's rows. *)
Theorem fetcher_returns viewer :
  getSession B 0 = Some viewer →
  Forall (λ r, thumbnail_ok B r = true) (rows_for B viewer) →
  (serve (HomeSongsFetcher B)).2 = Return (songs_for B viewer).
Proof.
  intros Hs Hok. rewrite HomeSongsFetcher_serve, Hs. simpl. unfold songs_for. erewrite Promise_all_fmap; [done |].
  eapply Forall_impl; [done |]. intros r. apply projected_ok.
Qed.

(** C9.  One row the signer fails for fails the whole page. *)
Theorem fetcher_throws viewer r :
  getSession B 0 = Some viewer →
  r ∈ rows_for B viewer → thumbnail_ok B r = false →
  ∃ e, (serve (HomeSongsFetcher B)).2 = Throw e.
Proof.
  intros Hs Hr [e He]%(projected_not_ok viewer).
  rewrite HomeSongsFetcher_serve, Hs. simpl.
  destruct (Promise_all_rejects (projected B viewer <$> rows_for B viewer) e)
    as [e' ->]; [|by eexists].
  rewrite <- He. by apply list_elem_of_fmap_2.
Qed.

(** Whatever the fetcher returns is the projection of the rows of the
    viewer of the session. *)
Theorem fetcher_Return_inv songs :
  (serve (HomeSongsFetcher B)).2 = Return songs →
  ∃ viewer, getSession B 0 = Some viewer ∧ songs = songs_for B viewer ∧
            Forall (λ r, thumbnail_ok B r = true) (rows_for B viewer).
Proof.
  rewrite HomeSongsFetcher_serve.
  destruct (getSession B 0) as [viewer|]; [|done]. simpl.
  destruct (Promise_all _) as [l|] eqn:E; [|done]. intros [= ->].
  exists viewer. split; [done |].
  apply (Promise_all_fmap_inv _ (λ r, props_of viewer r (thumbnailUrl_of B r)))
    in E as [-> HF].
  - split; [done |]. eapply Forall_impl; [done |]. simpl.
    by intros r [? _]%projected_Fulfilled.
  - by intros r p [_ ->]%projected_Fulfilled.
Qed.

End outcome_facts.

(** ** The props of the grid *)

Section props_facts.
Context (B : Backend).
Implicit Types (viewer : Session) (r : SongWithUser) (p : SongCardProps.t).

Lemma props_of_song viewer r u :
  let p := props_of viewer r u in
  SongCardProps.id p = Song.id (song r) ∧
  SongCardProps.createdAt p = Song.createdAt (song r) ∧
  SongCardProps.published p = Song.published (song r) ∧
  SongCardProps.playUrl p = None ∧
  SongCardProps.thumbnailUrl p = u.
Proof. done. Qed.

(** [isOwnSong] is set, and is true for the viewer's songs only. *)
Lemma props_of_isOwnSong viewer r u :
  SongCardProps.isOwnSong (props_of viewer r u) = Some true
  ↔ Song.userId (song r) = User.id (session_user viewer).
Proof. simpl. case_bool_decide; naive_solver. Qed.

Lemma songs_for_ids viewer :
  ids (songs_for B viewer) = Song.id <$> (song <$> rows_for B viewer).
Proof. unfold ids, songs_for. by rewrite <- !list_fmap_compose. Qed.

Lemma songs_for_length viewer :
  length (songs_for B viewer) = length (rows_for B viewer).
Proof. unfold songs_for. by rewrite length_fmap. Qed.

Lemma songs_for_elem_of viewer p :
  p ∈ songs_for B viewer ↔
  ∃ r, r ∈ rows_for B viewer ∧ p = props_of viewer r (thumbnailUrl_of B r).
Proof. unfold songs_for. rewrite list_elem_of_fmap. naive_solver. Qed.

Lemma rows_for_song viewer r :
  r ∈ rows_for B viewer →
  song r ∈ songTable (database B)
  ∧ visible (User.id (session_user viewer)) (song r).
Proof.
  intros Hr%(list_elem_of_fmap_2 song). unfold rows_for in Hr.
  rewrite findMany_perm, homeQuery_filter, list_elem_of_filter in Hr. tauto.
Qed.

(** Every card is the card of a song of the table that the viewer may see:
    the viewer's own, or a published one. *)
Theorem songs_for_visible viewer p :
  p ∈ songs_for B viewer →
  ∃ s, s ∈ songTable (database B) ∧ SongCardProps.id p = Song.id s ∧
       visible (User.id (session_user viewer)) s.
Proof.
  intros (r & Hr & ->)%songs_for_elem_of.
  exists (song r). by destruct (rows_for_song viewer r Hr).
Qed.

(** C37.  Every card the viewer receives is marked as the viewer's own or is
    published. *)
Theorem songs_for_own_or_published viewer p :
  p ∈ songs_for B viewer →
  SongCardProps.isOwnSong p = Some true ∨ SongCardProps.published p = true.
Proof.
  intros (r & Hr & ->)%songs_for_elem_of.
  rewrite props_of_isOwnSong. by destruct (rows_for_song viewer r Hr) as [_ Hv].
Qed.

(** Every song the viewer may see has a card. *)
Theorem songs_for_complete viewer s :
  s ∈ songTable (database B) →
  visible (User.id (session_user viewer)) s →
  Song.id s ∈ ids (songs_for B viewer).
Proof.
  intros Hs Hv. rewrite songs_for_ids. apply list_elem_of_fmap_2.
  unfold rows_for. by rewrite findMany_perm, homeQuery_filter, list_elem_of_filter.
Qed.

(** C36.  Newest first. *)
Theorem songs_for_sorted viewer :
  StronglySorted (key_ge SongCardProps.createdAt) (songs_for B viewer).
Proof.
  unfold songs_for. apply key_ge_fmap.
  apply (key_ge_fmap song Song.createdAt). unfold rows_for.
  rewrite findMany_song. apply sort_desc_sorted.
Qed.

(** The ids of the cards are distinct when the ids of the table are. *)
Theorem songs_for_NoDup viewer :
  NoDup (Song.id <$> songTable (database B)) → NoDup (ids (songs_for B viewer)).
Proof.
  intros Hnd. rewrite songs_for_ids. unfold rows_for. rewrite findMany_perm.
  eapply sublist_NoDup; [done |]. apply fmap_sublist, sublist_filter.
Qed.

(** No card arrives with a play URL: every URL is resolved on demand. *)
Theorem songs_for_playUrl viewer :
  Forall (λ p, SongCardProps.playUrl p = None) (songs_for B viewer).
Proof. unfold songs_for. by apply Forall_fmap, Forall_true. Qed.

(** C38.  A row without a key, or with an empty key, has no thumbnail, and the
    signer is not asked. *)
Theorem falsy_key_no_thumbnail r :
  truthy (Song.thumbnailS3Key (song r)) = false →
  thumbnailUrl_of B r = None ∧ signer_calls [r] = [].
Proof.
  intros H%signed_key_None. unfold thumbnailUrl_of, thumbnail_of, signer_calls.
  simpl. by rewrite H.
Qed.

(** The signer is asked once for every row with a key, in the order of the
    rows, and never for the empty key. *)
Lemma signer_calls_elem_of rows c :
  c ∈ signer_calls rows ↔
  ∃ r key, r ∈ rows ∧ signed_key r = Some key ∧ c = GetPreSignedUrl key.
Proof.
  unfold signer_calls. rewrite list_elem_of_fmap.
  setoid_rewrite list_elem_of_omap. naive_solver.
Qed.

Lemma signer_calls_length rows :
  length (signer_calls rows)
  = length (filter (λ r, truthy (Song.thumbnailS3Key (song r)) = true) rows).
Proof.
  unfold signer_calls. rewrite length_fmap.
  induction rows as [|r rows IH]; [done |]. rewrite filter_cons. csimpl.
  destruct (signed_key r) as [key|] eqn:E.
  - apply signed_key_truthy in E as [-> ->]. simpl. by rewrite IH.
  - apply signed_key_None in E. rewrite E. by rewrite decide_False.
Qed.

End props_facts.

(** ** The page *)

Section page_facts.
Context (B : Backend).

Lemma HomePage_serve :
  serve (HomePage B)
  = match getSession B 0 with
    | None => ([Headers; GetSession], Redirect "/auth/sign-in")
    | Some _ =>
        let '(tr, o) := HomeSongsFetcher B [Headers; GetSession] in
        (tr, (λ songs,
               {| heading := "Discover Music";
                  tagline := "Explore amazing songs created by our community";
                  grid_songs := songs |}) <$> o)
    end.
Proof.
  unfold serve, HomePage. erewrite Server_bind_Return by reflexivity.
  change (session_lookups []) with 0.
  destruct (getSession B 0); [|done].
  unfold mbind, Server_bind.
  by destruct (HomeSongsFetcher B _) as [tr []].
Qed.

(** The page and the fetcher each look the session up; a request that has
    lost its session at either lookup is redirected and reads no data. *)
Theorem page_redirects :
  getSession B 0 = None ∨ getSession B 1 = None →
  (serve (HomePage B)).2 = Redirect "/auth/sign-in" ∧
  filter reads_data (serve (HomePage B)).1 = [].
Proof.
  rewrite HomePage_serve, HomeSongsFetcher_run.
  change (session_lookups [Headers; GetSession]) with 1.
  destruct (getSession B 0), (getSession B 1); naive_solver.
Qed.

(** C18.  Every call that reads data is made for a request that had a session at
    both lookups. *)
Theorem page_reads_need_session c :
  c ∈ (serve (HomePage B)).1 → reads_data c = true →
  is_Some (getSession B 0) ∧ is_Some (getSession B 1).
Proof.
  rewrite HomePage_serve, HomeSongsFetcher_run.
  change (session_lookups [Headers; GetSession]) with 1.
  destruct (getSession B 0), (getSession B 1); simpl;
    rewrite ?elem_of_cons, ?elem_of_nil; naive_solver.
Qed.

(** The songs of the page are those of the viewer of the second lookup,
    the fetcher's own. *)
Theorem page_returns page :
  (serve (HomePage B)).2 = Return page →
  ∃ viewer, getSession B 1 = Some viewer ∧
            grid_songs page = songs_for B viewer ∧
            heading page = "Discover Music".
Proof.
  rewrite HomePage_serve, HomeSongsFetcher_run.
  change (session_lookups [Headers; GetSession]) with 1.
  destruct (getSession B 0); [|done].
  destruct (getSession B 1) as [viewer|]; [|done]. simpl.
  destruct (Promise_all _) as [l|] eqn:E; [|done]. intros [= <-].
  exists viewer. split; [done |]. split; [|done]. simpl.
  apply (Promise_all_fmap_inv _ (λ r, props_of viewer r (thumbnailUrl_of B r)))
    in E as [-> _]; [done |].
  by intros r p [_ ->]%projected_Fulfilled.
Qed.

(** With the same session at both lookups the page returns what the
    fetcher returns. *)
Theorem page_as_fetcher :
  is_Some (getSession B 0) → getSession B 1 = getSession B 0 →
  grid_songs <$> (serve (HomePage B)).2 = (serve (HomeSongsFetcher B)).2.
Proof.
  intros [viewer Hs] H1.
  rewrite HomePage_serve, HomeSongsFetcher_serve, HomeSongsFetcher_run.
  change (session_lookups [Headers; GetSession]) with 1. rewrite H1, Hs. simpl.
  by destruct (Promise_all _).
Qed.

End page_facts.

(** The calls of a request do not depend on what the signer answers: every
    signer call is made before any answer is looked at. *)
Theorem fetcher_calls_signer_independent (B B' : Backend) :
  getSession B = getSession B' → database B = database B' →
  (serve (HomeSongsFetcher B)).1 = (serve (HomeSongsFetcher B')).1.
Proof.
  intros Hs Hd. rewrite !HomeSongsFetcher_serve, Hs.
  destruct (getSession B' 0); [|done]. simpl. unfold rows_for. by rewrite Hd.
Qed.

(** ** The scenario of the spec *)

Example demo_fetcher_B :
  serve (HomeSongsFetcher (demo_backend "B" 2 []))
  = ([Headers; GetSession; FindMany (homeQuery "B");
      GetPreSignedUrl "thumbs/S4.png"],
     Return (songs_for (demo_backend "B" 2 []) (demo_session "B"))).
Proof. vm_compute. reflexivity. Qed.

Example demo_fetcher_B_props :
  (λ p, (SongCardProps.id p, SongCardProps.thumbnailUrl p,
         SongCardProps.isOwnSong p))
    <$> songs_for (demo_backend "B" 2 []) (demo_session "B")
  = [("S4", Some "https://cdn/thumbs/S4.png", Some true);
     ("S3", None, Some true); ("S2", None, Some false)].
Proof. vm_compute. reflexivity. Qed.

Example demo_fetcher_broken :
  serve (HomeSongsFetcher (demo_backend "B" 2 ["thumbs/S4.png"]))
  = ([Headers; GetSession; FindMany (homeQuery "B");
      GetPreSignedUrl "thumbs/S4.png"],
     Throw (ErrorObject "signer unavailable")).
Proof. vm_compute. reflexivity. Qed.

Example demo_page_expired :
  serve (HomePage (demo_backend "A" 1 []))
  = ([Headers; GetSession; Headers; GetSession], Redirect "/auth/sign-in").
Proof. vm_compute. reflexivity. Qed.

Lemma fetcher_redirects_witness :
  serve (HomeSongsFetcher (demo_backend "A" 0 []))
  = ([Headers; GetSession], Redirect "/auth/sign-in").
Proof. apply (fetcher_redirects (demo_backend "A" 0 [])). reflexivity. Defined.

Lemma fetcher_returns_witness :
  (serve (HomeSongsFetcher (demo_backend "B" 1 []))).2
  = Return (songs_for (demo_backend "B" 1 []) (demo_session "B")).
Proof.
  apply (fetcher_returns (demo_backend "B" 1 []) (demo_session "B"));
    [reflexivity |]. by vm_compute; repeat constructor.
Defined.

Lemma fetcher_throws_witness :
  ∃ e, (serve (HomeSongsFetcher (demo_backend "B" 1 ["thumbs/S4.png"]))).2
       = Throw e.
Proof.
  apply (fetcher_throws (demo_backend "B" 1 ["thumbs/S4.png"])
           (demo_session "B")
           {| song := row_S4; user := Some (User.mk "B" (Some "B")) |});
    [reflexivity | by vm_compute; left | reflexivity].
Defined.

Lemma songs_for_own_or_published_witness :
  let B := demo_backend "A" 1 [] in
  let p := props_of (demo_session "A")
             {| song := row_S3; user := Some (User.mk "B" (Some "B")) |} None in
  SongCardProps.isOwnSong p = Some true ∨ SongCardProps.published p = true.
Proof.
  intros B p. apply (songs_for_own_or_published B (demo_session "A") p).
  vm_compute. left.
Defined.

Lemma falsy_key_no_thumbnail_witness :
  let r := {| song := row_S3; user := None |} in
  thumbnailUrl_of (demo_backend "A" 1 []) r = None ∧ signer_calls [r] = [].
Proof.
  intros r. apply (falsy_key_no_thumbnail (demo_backend "A" 1 []) r).
  reflexivity.
Defined.

Lemma page_reads_need_session_witness :
  is_Some (getSession (demo_backend "B" 2 []) 0) ∧
  is_Some (getSession (demo_backend "B" 2 []) 1).
Proof.
  apply (page_reads_need_session (demo_backend "B" 2 [])
           (GetPreSignedUrl "thumbs/S4.png")); [|reflexivity].
  vm_compute. do 5 right. left.
Defined.

Lemma page_redirects_witness :
  (serve (HomePage (demo_backend "A" 1 []))).2 = Redirect "/auth/sign-in" ∧
  filter reads_data (serve (HomePage (demo_backend "A" 1 []))).1 = [].
Proof. apply (page_redirects (demo_backend "A" 1 [])). by right. Defined.
