(* ===== verification/Sidebar.v ===== *)
(** * Sidebar: the two buttons [Upgrade] and [CreateSong]

    [Upgrade] ([components/sidebar/upgrade.tsx]) starts a checkout for three
    products and logs a failure; [CreateSong] ([components/create.tsx])
    hands its click to the generation queue.  The payment client and the
    queue are imported collaborators: a handler returns the calls it makes
    of them. *)

From stdpp Require Import base option list.
From S2P Require Import Prelude.

Module Upgrade.

Inductive Cmd :=
| Checkout (products : list string)          (* authClient.checkout({ products }) *)
| ConsoleError (label text : string).        (* console.error(label, text) *)

#[global] Instance Cmd_eq_dec : EqDecision Cmd.
Proof. solve_decision. Defined.

(** The product ids of the checkout. *)
Definition products : list string :=
  [ "a209b547-608c-44e7-9178-4976a73c7135";
    "11bce5cb-bfda-4c8f-afcc-4a512e2d7361";
    "7ddf3794-111c-45ba-bd4c-36935d8ed81b" ].

(** [upgrade], up to its [await]. *)
Definition upgrade : list Cmd := [Checkout products].

(** [upgrade], from the [await] on: nothing after the [try] block, the log
    line in the [catch] block. *)
Definition upgrade_settled (r : Settled ()) : list Cmd :=
  match r with
  | Fulfilled _ => []
  | Rejected e => [ConsoleError "Failed to start checkout:" (error_text e)]
  end.

(** The button. *)
Record View := {
  variant : string;
  size : string;
  label : string;
  onClick : list Cmd;
}.

Definition render : View :=
  {| variant := "outline"; size := "sm"; label := "Upgrade";
     onClick := upgrade |}.

(** A character of a product id in its place: a hyphen at the positions
    8, 13, 18 and 23, a lower case hexadecimal digit elsewhere. *)
Definition uuid_char (i : nat) (c : Ascii.ascii) : bool :=
  if bool_decide (i ∈ [8; 13; 18; 23]) then bool_decide (String c "" = "-")
  else bool_decide (c ∈ String.list_ascii_of_string "0123456789abcdef").

Definition is_uuid (s : string) : bool :=
  bool_decide (String.length s = 36)
  && forallb (λ ic, uuid_char ic.1 ic.2)
       (imap pair (String.list_ascii_of_string s)).

End Upgrade.

Module CreateSong.

Inductive Cmd :=
| QueueSong.                                 (* queueSong(event) *)

Record View := {
  label : string;
  onClick : list Cmd;
}.

(** The button: its click handler is the queue action itself. *)
Definition render : View :=
  {| label := "Generate Song"; onClick := [QueueSong] |}.

End CreateSong.

(** ** The checkout *)

(** However the checkout settles, the handler starts no other one, and it
    logs exactly when the checkout failed. *)
Theorem upgrade_settled_no_checkout (r : Settled ()) products :
  (Upgrade.Checkout products ∉ Upgrade.upgrade_settled r) ∧
  (length (Upgrade.upgrade_settled r) = 1 ↔ ∃ e, r = Rejected e).
Proof.
  destruct r; simpl; rewrite ?elem_of_cons, ?elem_of_nil; naive_solver.
Qed.

(** The three product ids are well formed and distinct. *)
Theorem products_wf :
  length Upgrade.products = 3 ∧ NoDup Upgrade.products ∧
  forallb Upgrade.is_uuid Upgrade.products = true.
Proof.
  split; [done |]. split; [|by vm_compute].
  by apply (bool_decide_unpack (NoDup Upgrade.products)).
Qed.
