(* ===== verification/System.v ===== *)
(** * System: a request served and the session that follows

    The page the server returns is the first render of the client.  The
    theorems of this file join the two sides: what the fetcher returned
    bounds what the player can ever hold. *)

From stdpp Require Import base option list gmap sorting.
From S2P Require Import Prelude Types Store Effects Card Grid App Scenario.
From S2P Require Import Invariants Playback Query Fetcher.

(** The client after a request: the first render of the songs the fetcher
    returned. *)
Definition first_render (B : Backend) : Outcome (World SlotStore) :=
  init <$> (serve (HomeSongsFetcher B)).2.

(** A world of a session that a request of [B] starts. *)
Definition session_world (B : Backend) (w : World SlotStore) : Prop :=
  ∃ songs, (serve (HomeSongsFetcher B)).2 = Return songs ∧ reachable songs w.

Section system.
Context (B : Backend).
Implicit Types (w : World SlotStore).

Lemma session_world_viewer w :
  session_world B w →
  ∃ viewer, getSession B 0 = Some viewer ∧
            reachable (songs_for B viewer) w ∧ songs w = songs_for B viewer.
Proof.
  intros (songs0 & (viewer & Hs & -> & _)%fetcher_Return_inv & Hw).
  exists viewer. split; [done |]. split; [done |].
  by destruct (wf_always _ w Hw).
Qed.

Lemma view_empty w : view w = SongGrid.EmptyState ↔ songs w = [].
Proof.
  unfold view, SongGrid.render. destruct (songs w); [done |].
  split; discriminate.
Qed.

Lemma first_render_session_world songs0 :
  (serve (HomeSongsFetcher B)).2 = Return songs0 →
  session_world B (init songs0).
Proof. intros Hr. exists songs0. split; [done | apply reachable_init]. Qed.

(** C7.  The player only ever holds a track of a song of the table that the
    viewer may see. *)
Theorem session_track_visible w t :
  session_world B w → getTrack (store w) = Some t →
  ∃ viewer s, getSession B 0 = Some viewer ∧ s ∈ songTable (database B) ∧
              Track.id t = Song.id s ∧
              visible (User.id (session_user viewer)) s.
Proof.
  intros (viewer & Hs & Hw & _)%session_world_viewer Ht.
  destruct (inv_track_always _ w Hw t Ht) as (p & url & Hp & ->).
  destruct (songs_for_visible B viewer p Hp) as (s & ? & ? & ?).
  exists viewer, s. by rewrite track_of_id.
Qed.

(** Every request in flight asks for the url of a song the viewer may
    see. *)
Theorem session_requests_visible w p :
  session_world B w → p ∈ pending w →
  ∃ viewer s, getSession B 0 = Some viewer ∧ s ∈ songTable (database B) ∧
              requested p = Song.id s ∧
              visible (User.id (session_user viewer)) s.
Proof.
  intros (viewer & Hs & Hw & _)%session_world_viewer Hp.
  destruct (wf_always _ w Hw) as [_ _ _ Hpend].
  rewrite Forall_forall in Hpend. destruct (Hpend p Hp) as (Hc & -> & _).
  destruct (songs_for_visible B viewer _ Hc) as (s & ? & ? & ?).
  by exists viewer, s.
Qed.

(** C39.  With distinct ids in the table, at most one card of the page shows as
    playing, at every moment of the session. *)
Theorem session_one_playing w :
  NoDup (Song.id <$> songTable (database B)) → session_world B w →
  length (playing_cards (view w)) ≤ 1.
Proof.
  intros Hnd (viewer & _ & _ & Hsongs)%session_world_viewer.
  etransitivity; [apply playing_cards_view |].
  apply playing_songs_le_1. rewrite Hsongs. by apply songs_for_NoDup.
Qed.

(** C40.  The page shows the empty state exactly when the viewer may see no song
    of the table. *)
Theorem session_empty_state w :
  session_world B w →
  view w = SongGrid.EmptyState ↔
  ∃ viewer, getSession B 0 = Some viewer ∧
    Forall (λ s, ¬ visible (User.id (session_user viewer)) s)
           (songTable (database B)).
Proof.
  intros (viewer & Hs & _ & Hsongs)%session_world_viewer.
  rewrite view_empty, Hsongs.
  rewrite <- length_zero_iff_nil, songs_for_length.
  unfold rows_for. rewrite findMany_home_length, filter_length_zero_iff.
  split; [by exists viewer | by intros (v & [= <-]%(eq_trans (eq_sym Hs)) & ?)].
Qed.

End system.

(** ** The scenario of the spec, end to end *)

(** Viewer A receives the three songs of the client scenario. *)
Example demo_page_A :
  serve (HomeSongsFetcher (demo_backend "A" 2 []))
  = ([Headers; GetSession; FindMany (homeQuery "A")], Return demo_songs).
Proof. vm_compute. reflexivity. Qed.

Example demo_first_render :
  first_render (demo_backend "A" 2 []) = Return demo_init.
Proof. vm_compute. reflexivity. Qed.

Lemma demo_session_world es :
  session_world (demo_backend "A" 2 []) (demo_run es).
Proof. exists demo_songs. split; [by vm_compute | apply demo_run_reachable]. Qed.

Lemma session_track_visible_witness :
  ∃ viewer s,
    getSession (demo_backend "A" 2 []) 0 = Some viewer ∧
    s ∈ songTable (database (demo_backend "A" 2 [])) ∧
    Track.id (track_of S1 "https://cdn/S1") = Song.id s ∧
    visible (User.id (session_user viewer)) s.
Proof.
  apply (session_track_visible (demo_backend "A" 2 [])
           (demo_run later_request_first));
    [apply demo_session_world | vm_compute; reflexivity].
Defined.

Lemma session_one_playing_witness :
  length (playing_cards (view (demo_run later_request_first))) ≤ 1.
Proof.
  apply (session_one_playing (demo_backend "A" 2 []));
    [|apply demo_session_world].
  vm_compute. repeat constructor; set_solver.
Defined.

Lemma session_empty_state_witness :
  view (demo_run two_clicks) = SongGrid.EmptyState ↔
  ∃ viewer, getSession (demo_backend "A" 2 []) 0 = Some viewer ∧
    Forall (λ s, ¬ visible (User.id (session_user viewer)) s)
           (songTable (database (demo_backend "A" 2 []))).
Proof.
  apply (session_empty_state (demo_backend "A" 2 [])), demo_session_world.
Defined.
